(** * Veo Studio: the generation session of [src/App.tsx]

    A shallow embedding of the audio decoding helpers, of the handlers of
    the [App] component ([handleGenerate], [handleRetry],
    [handleApiKeyDialogContinue], [handleNewVideo],
    [handleTryAgainFromError], [handleExtend]) and of the controls the
    component and [src/components/VideoResult.tsx] render, followed by the
    properties of the specification that concern them. *)

From Stdlib Require Import ZArith QArith Qround Lia Bool Ascii String.
From Stdlib.Strings Require Import Byte.
From stdpp Require Import base list.

Open Scope Z_scope.

(** ** Values of the JavaScript runtime *)

(** A value caught by [catch (error)]: an [Error] object with its
    [message], or anything else a promise may reject with. *)
Inductive Thrown : Type :=
  | ErrorObject (message : string)
  | OtherValue.

(** The exceptions the runtime itself raises in the modelled code.  Their
    message texts are chosen by the engine, see [engineMessage] below. *)
Inductive BuiltinError : Type :=
  | SyntaxError
  | TypeError
  | RangeError
  | NotSupportedError
  | InvalidCharacterError.

(** ** Audio decoding, [decode] and [decodeAudioData] *)

Module AudioDecoder.

(** A [Uint8Array] that spans its whole [ArrayBuffer]. *)
Definition Uint8Array : Type := list byte.

Definition byteValue (b : byte) : Z := Z.of_N (Byte.to_N b).

(** [bytes[i] = binaryString.charCodeAt(i)]: a store into a [Uint8Array]
    keeps the code unit modulo 256. *)
Definition toUint8 (c : Z) : byte :=
  match Byte.of_N (Z.to_N (c mod 256)) with
  | Some b => b
  | None => x00
  end.

(** [decode], after [atob] has produced [binaryString], given here by its
    code units. *)
Definition decode (binaryString : list Z) : Uint8Array :=
  map toUint8 binaryString.

(** The value of a 16-bit little-endian element, read as signed. *)
Definition toInt16 (u : Z) : Z := if u <? 32768 then u else u - 65536.

Definition int16OfBytes (lo hi : byte) : Z :=
  toInt16 (byteValue lo + 256 * byteValue hi).

Fixpoint int16View (buffer : list byte) : list Z :=
  match buffer with
  | lo :: hi :: rest => int16OfBytes lo hi :: int16View rest
  | _ => []
  end.

(** [new Int16Array(data.buffer)]: the constructor raises a [RangeError]
    when the byte length of the buffer is not a multiple of the element
    size. *)
Definition newInt16Array (buffer : list byte) : BuiltinError + list Z :=
  if Nat.even (length buffer) then inr (int16View buffer) else inl RangeError.

(** An element of a [Float32Array].  Every number the decoder stores is
    [n / 32768] for a 16-bit [n], which single precision represents
    exactly, so numbers are kept as rationals. *)
Inductive Sample : Type :=
  | Num (q : Q)
  | NaN.

Record AudioBuffer : Type := mkAudioBuffer {
  numberOfChannels : nat;
  frameLength : nat;
  bufferSampleRate : Z;
  channels : list (list Sample)
}.

(** Conversion of a number to the [unsigned long] argument of
    [createBuffer]: the fraction is dropped.  (Array lengths are far below
    [2^32], where the conversion would wrap.) *)
Definition toUnsignedLong (x : Q) : nat := Z.to_nat (Qfloor x).

(** The [ctx] argument: an audio context, known here by the limits its
    implementation puts on buffers.  Every implementation supports at least
    32 channels and the sample rates from 8000 to 96000, and none supports
    a rate of zero or below; the three fields say how far one goes beyond
    the required limits. *)
Record AudioContext : Type := mkAudioContext {
  channelsBeyond32 : nat;
  ratesBelow8000 : N;
  ratesAbove96000 : N
}.

Definition maxChannels (ctx : AudioContext) : nat :=
  (32 + channelsBeyond32 ctx)%nat.

Definition minSampleRate (ctx : AudioContext) : Z :=
  Z.max 1 (8000 - Z.of_N (ratesBelow8000 ctx)).

Definition maxSampleRate (ctx : AudioContext) : Z :=
  96000 + Z.of_N (ratesAbove96000 ctx).

Definition supportsRate (ctx : AudioContext) (sampleRate : Z) : bool :=
  (minSampleRate ctx <=? sampleRate) && (sampleRate <=? maxSampleRate ctx).

(** A context with the required limits and no more. *)
Definition baseline : AudioContext :=
  {| channelsBeyond32 := 0; ratesBelow8000 := 0; ratesAbove96000 := 0 |}.

(** [ctx.createBuffer(numChannels, frameCount, sampleRate)]: a zero-filled
    buffer; a [NotSupportedError] when the channel count or the length is
    zero, when there are more channels than the context supports, or when
    the sample rate is outside the range it supports.  (A length too large
    for the memory at hand is not modelled.) *)
Definition createBuffer (ctx : AudioContext) (numChannels : nat) (frameCount : Q)
    (sampleRate : Z) : BuiltinError + AudioBuffer :=
  let len := toUnsignedLong frameCount in
  if (numChannels =? 0)%nat || (maxChannels ctx <? numChannels)%nat
     || (len =? 0)%nat || negb (supportsRate ctx sampleRate)
  then inl NotSupportedError
  else inr {| numberOfChannels := numChannels;
              frameLength := len;
              bufferSampleRate := sampleRate;
              channels := replicate numChannels (replicate len (Num 0)) |}.

(** [dataInt16[k] / 32768.0]; a read past the end is [undefined], and the
    quotient is then [NaN]. *)
Definition div32768 (v : option Z) : Sample :=
  match v with
  | Some n => Num (n # 32768)
  | None => NaN
  end.

(** One turn of the inner loop:
    [channelData[i] = dataInt16[i * numChannels + channel] / 32768.0].
    A store past the end of a typed array is dropped, as stdpp's insert. *)
Definition storeFrame (dataInt16 : list Z) (numChannels channel : nat)
    (channelData : list Sample) (i : nat) : list Sample :=
  <[ i := div32768 (dataInt16 !! (i * numChannels + channel)%nat) ]> channelData.

(** How many [i = 0, 1, ...] satisfy [i < frameCount]. *)
Definition turns (frameCount : Q) : nat := Z.to_nat (Qceiling frameCount).

(** [for (let i = 0; i < frameCount; i++) ...] *)
Definition fillChannel (dataInt16 : list Z) (numChannels : nat) (frameCount : Q)
    (channel : nat) (channelData : list Sample) : list Sample :=
  fold_left (storeFrame dataInt16 numChannels channel)
            (seq 0 (turns frameCount)) channelData.

(** One turn of the outer loop.  [getChannelData] hands out the channel's
    own array, so the stores land in the buffer; it raises (an
    [IndexSizeError], rendered here as [RangeError]) for a channel the
    buffer does not have. *)
Definition fillBuffer (dataInt16 : list Z) (numChannels : nat) (frameCount : Q)
    (acc : BuiltinError + list (list Sample)) (channel : nat)
  : BuiltinError + list (list Sample) :=
  match acc with
  | inl e => inl e
  | inr chans =>
      match chans !! channel with
      | Some channelData =>
          inr (<[ channel :=
                   fillChannel dataInt16 numChannels frameCount channel channelData ]>
                 chans)
      | None => inl RangeError
      end
  end.

(** [a / b] on numbers: the quotient keeps its fraction.  A division by
    zero gives an infinity or [NaN], which [createBuffer] turns into
    length zero; the rational quotient is then zero as well. *)
Definition numberDiv (a b : nat) : Q :=
  (inject_Z (Z.of_nat a) / inject_Z (Z.of_nat b))%Q.

Definition decodeAudioData (data : Uint8Array) (ctx : AudioContext) (sampleRate : Z)
    (numChannels : nat) : BuiltinError + AudioBuffer :=
  match newInt16Array data with
  | inl e => inl e
  | inr dataInt16 =>
      let frameCount : Q := numberDiv (length dataInt16) numChannels in
      match createBuffer ctx numChannels frameCount sampleRate with
      | inl e => inl e
      | inr buffer =>
          match fold_left (fillBuffer dataInt16 numChannels frameCount)
                          (seq 0 numChannels) (inr (channels buffer)) with
          | inl e => inl e
          | inr chans =>
              inr {| numberOfChannels := numberOfChannels buffer;
                     frameLength := frameLength buffer;
                     bufferSampleRate := bufferSampleRate buffer;
                     channels := chans |}
          end
      end
  end.

End AudioDecoder.

(** ** Text *)

Module Text.

#[local] Open Scope string_scope.

Fixpoint startsWith (s pat : string) {struct pat} : bool :=
  match pat, s with
  | EmptyString, _ => true
  | String p pat', String c s' => Ascii.eqb c p && startsWith s' pat'
  | String _ _, EmptyString => false
  end.

(** [s.includes(pat)]: [pat] occurs in [s] at some position.  The patterns
    of the application are ASCII, for which an occurrence among the bytes
    of the text is an occurrence among its code units. *)
Fixpoint includes (s pat : string) : bool :=
  startsWith s pat ||
  match s with
  | EmptyString => false
  | String _ s' => includes s' pat
  end.

Definition lowerChar (c : ascii) : ascii :=
  let n := nat_of_ascii c in
  if (65 <=? n)%nat && (n <=? 90)%nat then ascii_of_nat (n + 32) else c.

(** [s.toLowerCase()] on the letters A-Z.  Outside ASCII the only letter
    whose lower case contains a letter of "permission denied" is U+0130,
    and it yields "i" followed by a combining dot, which cannot continue
    the pattern; leaving such characters alone does not change what
    [includes] finds. *)
Fixpoint toLowerCase (s : string) : string :=
  match s with
  | EmptyString => EmptyString
  | String c s' => String (lowerChar c) (toLowerCase s')
  end.

(** A string in a condition: the empty string counts as false. *)
Definition truthy (s : option string) : bool :=
  match s with
  | Some (String _ _) => true
  | _ => false
  end.

End Text.

(** ** Parsed JSON *)

#[warnings="-register-all"]
Inductive Json : Type :=
  | JNull
  | JBool (b : bool)
  | JNumber (literal : string)
  | JString (s : string)
  | JArray (items : list Json)
  | JObject (members : list (string * Json)).

(** A JavaScript value that came out of a parsed script; [None] is
    [undefined]. *)
Definition JsValue : Type := option Json.

Fixpoint member (key : string) (members : list (string * Json)) : JsValue :=
  match members with
  | [] => None
  | (k, v) :: rest => if String.eqb k key then Some v else member key rest
  end.

(** [script.key] inside a destructuring pattern: [null] cannot be
    destructured; a value that is not an object has none of the three
    properties read by the application. *)
Definition property (script : Json) (key : string) : BuiltinError + JsValue :=
  match script with
  | JNull => inl TypeError
  | JObject members => inr (member key members)
  | _ => inr None
  end.

Definition isString (needle : string) (v : Json) : bool :=
  match v with
  | JString s => String.eqb s needle
  | _ => false
  end.

(** [v.includes(needle)]: the string method on a string, the array method
    on an array, and a [TypeError] on every other value, which has no such
    method. *)
Definition includesMethod (v : JsValue) (needle : string) : BuiltinError + bool :=
  match v with
  | Some (JString s) => inr (Text.includes s needle)
  | Some (JArray items) => inr (existsb (isString needle) items)
  | _ => inl TypeError
  end.

(** ** The data model of [./types] *)

(** Modelled from the spec: the module [./types] is not among the sources.
    The states are the four the specification lists and [App.tsx] names. *)
Inductive AppState : Type := IDLE | LOADING | SUCCESS | ERROR.

(** Modelled from the spec: the aspect ratios of [./types], of which
    [App.tsx] names these two. *)
Inductive AspectRatio : Type := LANDSCAPE | PORTRAIT.

(** Modelled from the spec: the tiers of [./types]; [P720] is the tier an
    extension requires, any other tier is kept by its name. *)
Inductive Resolution : Type :=
  | P720
  | OtherResolution (name : string).

(** Modelled from the spec: the generation modes of [./types]. *)
Inductive GenerationMode : Type :=
  | TEXT_TO_VIDEO
  | STORY_TO_VIDEO
  | EXTEND_VIDEO.

(** The service's handle of a generated video, kept for chaining. *)
Record Video : Type := mkVideo { videoUri : string }.

Record Blob : Type := mkBlob { blobType : string; blobBytes : list byte }.

(** [new File(parts, name, {type})] *)
Record File : Type := mkFile {
  fileParts : list Blob;
  fileName : string;
  fileType : string
}.

Record ImageFile : Type := mkImageFile { imageFile : File; imageBase64 : string }.

Record VideoFile : Type := mkVideoFile { file : File; base64 : string }.

(** Modelled from the spec: [GenerateVideoParams] of [./types], with the
    fields [handleExtend] writes and the ones its spread carries over
    ("model, aspect ratio"). *)
Record GenerateVideoParams : Type := mkParams {
  prompt : string;
  model : string;
  aspectRatio : AspectRatio;
  resolution : Resolution;
  mode : GenerationMode;
  startFrame : option ImageFile;
  endFrame : option ImageFile;
  referenceImages : list ImageFile;
  styleImage : option ImageFile;
  inputVideo : option VideoFile;
  inputVideoObject : option Video;
  isLooping : bool
}.

(** What [generateVideo] resolves to. *)
Record VideoResult : Type := mkVideoResult {
  objectUrl : string;
  blob : Blob;
  video : Video
}.

Definition resolution_eqb (a b : Resolution) : bool :=
  match a, b with
  | P720, P720 => true
  | OtherResolution x, OtherResolution y => String.eqb x y
  | _, _ => false
  end.

(** ** The state of the [App] component *)

Record Session : Type := mkSession {
  appState : AppState;
  videoUrl : option string;
  audioBuffer : option AudioDecoder.AudioBuffer;
  errorMessage : option string;
  lastConfig : option GenerateVideoParams;
  lastVideoObject : option Video;
  lastVideoBlob : option Blob;
  showApiKeyDialog : bool;
  initialFormValues : option GenerateVideoParams
}.

Definition setAppState (v : AppState) (s : Session) : Session :=
  mkSession v (videoUrl s) (audioBuffer s) (errorMessage s) (lastConfig s)
            (lastVideoObject s) (lastVideoBlob s) (showApiKeyDialog s)
            (initialFormValues s).

Definition setVideoUrl (v : option string) (s : Session) : Session :=
  mkSession (appState s) v (audioBuffer s) (errorMessage s) (lastConfig s)
            (lastVideoObject s) (lastVideoBlob s) (showApiKeyDialog s)
            (initialFormValues s).

Definition setAudioBuffer (v : option AudioDecoder.AudioBuffer) (s : Session) : Session :=
  mkSession (appState s) (videoUrl s) v (errorMessage s) (lastConfig s)
            (lastVideoObject s) (lastVideoBlob s) (showApiKeyDialog s)
            (initialFormValues s).

Definition setErrorMessage (v : option string) (s : Session) : Session :=
  mkSession (appState s) (videoUrl s) (audioBuffer s) v (lastConfig s)
            (lastVideoObject s) (lastVideoBlob s) (showApiKeyDialog s)
            (initialFormValues s).

Definition setLastConfig (v : option GenerateVideoParams) (s : Session) : Session :=
  mkSession (appState s) (videoUrl s) (audioBuffer s) (errorMessage s) v
            (lastVideoObject s) (lastVideoBlob s) (showApiKeyDialog s)
            (initialFormValues s).

Definition setLastVideoObject (v : option Video) (s : Session) : Session :=
  mkSession (appState s) (videoUrl s) (audioBuffer s) (errorMessage s) (lastConfig s)
            v (lastVideoBlob s) (showApiKeyDialog s) (initialFormValues s).

Definition setLastVideoBlob (v : option Blob) (s : Session) : Session :=
  mkSession (appState s) (videoUrl s) (audioBuffer s) (errorMessage s) (lastConfig s)
            (lastVideoObject s) v (showApiKeyDialog s) (initialFormValues s).

Definition setShowApiKeyDialog (v : bool) (s : Session) : Session :=
  mkSession (appState s) (videoUrl s) (audioBuffer s) (errorMessage s) (lastConfig s)
            (lastVideoObject s) (lastVideoBlob s) v (initialFormValues s).

Definition setInitialFormValues (v : option GenerateVideoParams) (s : Session) : Session :=
  mkSession (appState s) (videoUrl s) (audioBuffer s) (errorMessage s) (lastConfig s)
            (lastVideoObject s) (lastVideoBlob s) (showApiKeyDialog s) v.

(** The [useState] initial values. *)
Definition initialSession : Session :=
  mkSession IDLE None None None None None None false None.

(** ** Collaborators *)

(** [{...params, prompt: image_prompt, aspectRatio}]: the argument of
    [generateVideo].  The fields other than the two written out are read
    from [callParams].  The prompt is the value found in the script, which
    nothing forces to be a string. *)
Record VideoCall : Type := mkVideoCall {
  callParams : GenerateVideoParams;
  callPrompt : JsValue;
  callAspectRatio : AspectRatio
}.

(** [generateVideo(params)] with the parameters as submitted. *)
Definition plainCall (params : GenerateVideoParams) : VideoCall :=
  {| callParams := params;
     callPrompt := Some (JString (prompt params));
     callAspectRatio := aspectRatio params |}.

(** What a run of a handler does to the outside, in order. *)
Inductive Effect : Type :=
  | HasSelectedApiKey
  | OpenSelectKey
  | ConsoleWarn
  | ConsoleError
  | GenerateVideo (call : VideoCall)
  | GenerateSpeech (dialogue voice_tone : JsValue)
  | Atob (audioBase64 : string)
  | DecodeAudioData (data : AudioDecoder.Uint8Array).

(** What the outside answers during one run of [handleGenerate]. *)
Record Answers : Type := mkAnswers {
  (** [window.aistudio]: [None] when absent, else how
      [hasSelectedApiKey()] settles *)
  aistudio : option (Thrown + bool);
  (** the message the engine gives each exception it raises *)
  engineMessage : BuiltinError -> string;
  (** [JSON.parse(params.prompt)]; [None] is a [SyntaxError] *)
  parsed : option Json;
  (** how the promise of [generateVideo] settles *)
  videoSettled : Thrown + VideoResult;
  (** how the promise of [generateSpeech] settles *)
  speechSettled : Thrown + string;
  (** when both reject: whether the video promise does so first *)
  videoRejectsFirst : bool;
  (** the code units of [atob(audioBase64)]; [None] is an
      [InvalidCharacterError] *)
  atobResult : option (list Z);
  (** the context [new AudioContext({sampleRate: 24000})] gives *)
  outputAudioContext : AudioDecoder.AudioContext
}.

Definition raised (ans : Answers) (e : BuiltinError) : Thrown :=
  ErrorObject (engineMessage ans e).

(** [Promise.all([a, b])]: fulfilled with both values once both are;
    rejected with the reason of the first promise to reject. *)
Definition promiseAll {A B : Type} (a : Thrown + A) (b : Thrown + B)
    (firstRejectsFirst : bool) : Thrown + (A * B) :=
  match a, b with
  | inr x, inr y => inr (x, y)
  | inl e, inr _ => inl e
  | inr _, inl e => inl e
  | inl e1, inl e2 => inl (if firstRejectsFirst then e1 else e2)
  end.

(** ** The catch block of [handleGenerate] *)

Module ErrorClassifier.

#[local] Open Scope string_scope.

(** [error instanceof Error ? error.message : 'An unknown error occurred.'] *)
Definition rawMessage (error : Thrown) : string :=
  match error with
  | ErrorObject message => message
  | OtherValue => "An unknown error occurred."
  end.

Record Classified : Type := mkClassified {
  userFriendlyMessage : string;
  shouldOpenDialog : bool
}.

Definition classify (errorMessage : string) : Classified :=
  if Text.includes errorMessage "Requested entity was not found." then
    {| userFriendlyMessage :=
         "Model not found. This can be caused by an invalid API key or permission issues. Please check your API key.";
       shouldOpenDialog := true |}
  else if Text.includes errorMessage "API_KEY_INVALID"
          || Text.includes errorMessage "API key not valid"
          || Text.includes (Text.toLowerCase errorMessage) "permission denied" then
    {| userFriendlyMessage :=
         "Your API key is invalid or lacks permissions. Please select a valid, billing-enabled API key.";
       shouldOpenDialog := true |}
  else
    {| userFriendlyMessage := "Video generation failed: " ++ errorMessage;
       shouldOpenDialog := false |}.

End ErrorClassifier.

Definition catchBlock (error : Thrown) (s : Session) : Session :=
  let c := ErrorClassifier.classify (ErrorClassifier.rawMessage error) in
  let s := setErrorMessage (Some (ErrorClassifier.userFriendlyMessage c)) s in
  let s := setAppState ERROR s in
  if ErrorClassifier.shouldOpenDialog c then setShowApiKeyDialog true s else s.

(** ** The try block of [handleGenerate] *)

Open Scope string_scope.
Open Scope list_scope.

(** The aspect ratio of a story, read off the image prompt. *)
Definition inferAspectRatio (image_prompt : JsValue) (aspectRatio : AspectRatio)
  : BuiltinError + AspectRatio :=
  match includesMethod image_prompt "9:16" with
  | inl e => inl e
  | inr true => inr PORTRAIT
  | inr false =>
      match includesMethod image_prompt "vertical" with
      | inl e => inl e
      | inr true => inr PORTRAIT
      | inr false =>
          match includesMethod image_prompt "16:9" with
          | inl e => inl e
          | inr true => inr LANDSCAPE
          | inr false =>
              match includesMethod image_prompt "landscape" with
              | inl e => inl e
              | inr true => inr LANDSCAPE
              | inr false => inr aspectRatio
              end
          end
      end
  end.

(** [const {dialogue, voice_tone, image_prompt} = script] *)
Definition destructure (script : Json) : BuiltinError + (JsValue * JsValue * JsValue) :=
  match property script "dialogue", property script "voice_tone",
        property script "image_prompt" with
  | inr d, inr t, inr p => inr (d, t, p)
  | inl e, _, _ => inl e
  | _, inl e, _ => inl e
  | _, _, inl e => inl e
  end.

(** What the try block has in hand when it reaches its setters:
    the video, and the decoded audio in story mode only. *)
Record Produced : Type := mkProduced {
  producedVideo : VideoResult;
  producedAudio : option AudioDecoder.AudioBuffer
}.

(** The story branch, with the log of what it did.  Each exit to the catch
    block is an [inl].  The construction of the audio context between the
    join and the decoding is taken to succeed. *)
Definition storyAttempt (params : GenerateVideoParams) (ans : Answers)
  : list Effect * (Thrown + Produced) :=
  match parsed ans with
  | None => ([], inl (raised ans SyntaxError))
  | Some script =>
      match destructure script with
      | inl e => ([], inl (raised ans e))
      | inr (dialogue, voice_tone, image_prompt) =>
          match inferAspectRatio image_prompt (aspectRatio params) with
          | inl e => ([], inl (raised ans e))
          | inr ratio =>
              let videoParams :=
                {| callParams := params;
                   callPrompt := image_prompt;
                   callAspectRatio := ratio |} in
              let calls :=
                [GenerateVideo videoParams; GenerateSpeech dialogue voice_tone] in
              match promiseAll (videoSettled ans) (speechSettled ans)
                               (videoRejectsFirst ans) with
              | inl error => (calls, inl error)
              | inr (videoResult, audioBase64) =>
                  match atobResult ans with
                  | None =>
                      (calls ++ [Atob audioBase64],
                       inl (raised ans InvalidCharacterError))
                  | Some binaryString =>
                      let data := AudioDecoder.decode binaryString in
                      let log := calls ++ [Atob audioBase64; DecodeAudioData data] in
                      match AudioDecoder.decodeAudioData
                              data (outputAudioContext ans) 24000 1 with
                      | inl e => (log, inl (raised ans e))
                      | inr decodedBuffer =>
                          (log, inr {| producedVideo := videoResult;
                                       producedAudio := Some decodedBuffer |})
                      end
                  end
              end
          end
      end
  end.

(** The try block up to its setters: the story branch, or the single
    video call of every other mode. *)
Definition attempt (params : GenerateVideoParams) (ans : Answers)
  : list Effect * (Thrown + Produced) :=
  match mode params with
  | STORY_TO_VIDEO => storyAttempt params ans
  | _ =>
      ([GenerateVideo (plainCall params)],
       match videoSettled ans with
       | inl error => inl error
       | inr result => inr {| producedVideo := result; producedAudio := None |}
       end)
  end.

(** ** The handlers of [App] *)

(** The credential gate: whether [handleGenerate] returns at once.  Without
    [window.aistudio] the check is skipped. *)
Definition keyMissing (aistudio : option (Thrown + bool)) : bool :=
  match aistudio with
  | None => false
  | Some (inr hasKey) => negb hasKey
  | Some (inl _) => true
  end.

Definition gateLog (aistudio : option (Thrown + bool)) : list Effect :=
  match aistudio with
  | None => []
  | Some (inr _) => [HasSelectedApiKey]
  | Some (inl _) => [HasSelectedApiKey; ConsoleWarn]
  end.

(** The four setters between the gate and the try block. *)
Definition beginGenerate (params : GenerateVideoParams) (s : Session) : Session :=
  let s := setAppState LOADING s in
  let s := setErrorMessage None s in
  let s := setLastConfig (Some params) s in
  setInitialFormValues None s.

(** The setters at the end of either branch of the try block, and
    [setAppState(AppState.SUCCESS)].  Only the story branch calls
    [setAudioBuffer]. *)
Definition applyProduced (r : Produced) (s : Session) : Session :=
  let s :=
    match producedAudio r with
    | Some decodedBuffer => setAudioBuffer (Some decodedBuffer) s
    | None => s
    end in
  let s := setVideoUrl (Some (objectUrl (producedVideo r))) s in
  let s := setLastVideoBlob (Some (blob (producedVideo r))) s in
  let s := setLastVideoObject (Some (video (producedVideo r))) s in
  setAppState SUCCESS s.

Definition settle (outcome : Thrown + Produced) (s : Session) : Session :=
  match outcome with
  | inr r => applyProduced r s
  | inl error => catchBlock error s
  end.

Definition settleLog (outcome : Thrown + Produced) : list Effect :=
  match outcome with
  | inr _ => []
  | inl _ => [ConsoleError]
  end.

Definition handleGenerate (params : GenerateVideoParams) (ans : Answers)
    (s : Session) : Session * list Effect :=
  if keyMissing (aistudio ans) then
    (setShowApiKeyDialog true s, gateLog (aistudio ans))
  else
    let '(log, outcome) := attempt params ans in
    (settle outcome (beginGenerate params s),
     gateLog (aistudio ans) ++ log ++ settleLog outcome).

Definition handleRetry (ans : Answers) (s : Session) : Session * list Effect :=
  match lastConfig s with
  | Some config => handleGenerate config ans s
  | None => (s, [])
  end.

(** [selectKey]: [None] without [window.aistudio]; otherwise whether
    [openSelectKey()] resolves.  When it rejects the handler ends there.
    [appState] and [lastConfig] are the ones of the render that showed the
    dialog. *)
Definition handleApiKeyDialogContinue (selectKey : option bool) (ans : Answers)
    (s : Session) : Session * list Effect :=
  let s1 := setShowApiKeyDialog false s in
  let log := match selectKey with Some _ => [OpenSelectKey] | None => [] end in
  match selectKey with
  | Some false => (s1, log)
  | _ =>
      match appState s, lastConfig s with
      | ERROR, Some _ =>
          let '(s2, log2) := handleRetry ans s1 in (s2, log ++ log2)
      | _, _ => (s1, log)
      end
  end.

Definition handleNewVideo (s : Session) : Session :=
  let s := setAppState IDLE s in
  let s := setVideoUrl None s in
  let s := setAudioBuffer None s in
  let s := setErrorMessage None s in
  let s := setLastConfig None s in
  let s := setLastVideoObject None s in
  let s := setLastVideoBlob None s in
  setInitialFormValues None s.

Definition handleTryAgainFromError (s : Session) : Session :=
  match lastConfig s with
  | Some config =>
      let s := setInitialFormValues (Some config) s in
      let s := setAppState IDLE s in
      setErrorMessage None s
  | None => handleNewVideo s
  end.

(** The request [handleExtend] puts in the form. *)
Definition extendValues (config : GenerateVideoParams) (lastBlob : Blob)
    (lastVideo : Video) : GenerateVideoParams :=
  let lastFile :=
    {| fileParts := [lastBlob];
       fileName := "last_video.mp4";
       fileType := blobType lastBlob |} in
  let videoFile := {| file := lastFile; base64 := EmptyString |} in
  {| prompt := EmptyString;
     model := model config;
     aspectRatio := aspectRatio config;
     resolution := P720;
     mode := EXTEND_VIDEO;
     startFrame := None;
     endFrame := None;
     referenceImages := [];
     styleImage := None;
     inputVideo := Some videoFile;
     inputVideoObject := Some lastVideo;
     isLooping := false |}.

(** Nothing in the try block of [handleExtend] can raise, so its catch
    block is not reached. *)
Definition handleExtend (s : Session) : Session :=
  match lastConfig s, lastVideoBlob s, lastVideoObject s with
  | Some config, Some lastBlob, Some lastVideo =>
      let s := setInitialFormValues (Some (extendValues config lastBlob lastVideo)) s in
      let s := setAppState IDLE s in
      let s := setVideoUrl None s in
      let s := setAudioBuffer None s in
      setErrorMessage None s
  | _, _, _ => s
  end.

(** ** What the component renders *)

Inductive Control : Type :=
  | PromptFormSubmit
  | RetryButton
  | ExtendButton
  | NewVideoButton
  | TryAgainButton
  | ApiKeyDialogContinue.

(** [lastConfig?.resolution === Resolution.P720] *)
Definition canExtend (s : Session) : bool :=
  match lastConfig s with
  | Some config => resolution_eqb (resolution config) P720
  | None => false
  end.

(** The controls of the rendered view: the dialog when it is shown, the
    form when idle, nothing but the indicator while loading, the buttons of
    [VideoResult] on a success with a URL, and the "Try Again" button of
    [renderError]. *)
Definition controls (s : Session) : list Control :=
  (if showApiKeyDialog s then [ApiKeyDialogContinue] else []) ++
  match appState s with
  | IDLE => [PromptFormSubmit]
  | LOADING => []
  | SUCCESS =>
      if Text.truthy (videoUrl s) then
        [RetryButton] ++ (if canExtend s then [ExtendButton] else [])
                      ++ [NewVideoButton]
      else [TryAgainButton]
  | ERROR => if Text.truthy (errorMessage s) then [TryAgainButton] else []
  end.

(** A use of a control, with what the outside answers while its handler
    runs. *)
Inductive Event : Type :=
  | Submit (params : GenerateVideoParams) (ans : Answers)
  | ClickRetry (ans : Answers)
  | ClickExtend
  | ClickNewVideo
  | ClickTryAgain
  | ClickContinue (selectKey : option bool) (ans : Answers).

Definition controlOf (e : Event) : Control :=
  match e with
  | Submit _ _ => PromptFormSubmit
  | ClickRetry _ => RetryButton
  | ClickExtend => ExtendButton
  | ClickNewVideo => NewVideoButton
  | ClickTryAgain => TryAgainButton
  | ClickContinue _ _ => ApiKeyDialogContinue
  end.

Definition Control_eqb (a b : Control) : bool :=
  match a, b with
  | PromptFormSubmit, PromptFormSubmit
  | RetryButton, RetryButton
  | ExtendButton, ExtendButton
  | NewVideoButton, NewVideoButton
  | TryAgainButton, TryAgainButton
  | ApiKeyDialogContinue, ApiKeyDialogContinue => true
  | _, _ => false
  end.

Definition offered (c : Control) (s : Session) : bool :=
  existsb (Control_eqb c) (controls s).

(** The state once the handler of the control has run to its end. *)
Definition handle (e : Event) (s : Session) : Session :=
  match e with
  | Submit params ans => fst (handleGenerate params ans s)
  | ClickRetry ans => fst (handleRetry ans s)
  | ClickExtend => handleExtend s
  | ClickNewVideo => handleNewVideo s
  | ClickTryAgain => handleTryAgainFromError s
  | ClickContinue selectKey ans => fst (handleApiKeyDialogContinue selectKey ans s)
  end.

(** A control acts only when the view shows it. *)
Definition step (s : Session) (e : Event) : Session :=
  if offered (controlOf e) s then handle e s else s.

Definition run (events : list Event) (s : Session) : Session :=
  fold_left step events s.

(** The sessions reached when the controls are used one at a time, each
    handler running to its end before the next use; the effect run at mount
    may have opened the dialog before anything else.  Runs that overlap are
    the matter of [reaches] below. *)
Inductive reachable : Session -> Prop :=
  | reachable_mount (dialog : bool) :
      reachable (setShowApiKeyDialog dialog initialSession)
  | reachable_step (s : Session) (e : Event) :
      reachable s -> offered (controlOf e) s = true -> reachable (handle e s).

(** ** Vocabulary of the statements *)

(** [pat] occurs in [s]: some text before it, some text after it. *)
Definition occursIn (pat s : string) : Prop :=
  exists before after, s = (before ++ pat ++ after)%string.

(** ** One session, step by step *)

Module Scenario.

#[local] Open Scope string_scope.

Definition quoted (s : string) : string :=
  String (ascii_of_nat 34) s ++ String (ascii_of_nat 34) EmptyString.

(** The messages of one engine. *)
Definition messages (e : BuiltinError) : string :=
  match e with
  | SyntaxError => "Unexpected end of JSON input"
  | TypeError => "Cannot read properties of undefined (reading 'includes')"
  | RangeError => "byte length of Int16Array should be a multiple of 2"
  | NotSupportedError => "The number of frames provided (0) is less than or equal to the minimum bound (0)."
  | InvalidCharacterError => "The string to be decoded is not correctly encoded."
  end.

Definition storyText : string :=
  "{" ++ quoted "dialogue" ++ ":" ++ quoted "Once upon a time" ++ ","
      ++ quoted "voice_tone" ++ ":" ++ quoted "calm" ++ ","
      ++ quoted "image_prompt" ++ ":" ++ quoted "a castle at dawn, vertical 16:9 poster"
      ++ "}".

Definition storyScript : Json :=
  JObject [("dialogue", JString "Once upon a time");
           ("voice_tone", JString "calm");
           ("image_prompt", JString "a castle at dawn, vertical 16:9 poster")].

Definition request (m : GenerationMode) (text : string) : GenerateVideoParams :=
  {| prompt := text;
     model := "veo-3.1-fast-generate-preview";
     aspectRatio := LANDSCAPE;
     resolution := P720;
     mode := m;
     startFrame := None;
     endFrame := None;
     referenceImages := [];
     styleImage := None;
     inputVideo := None;
     inputVideoObject := None;
     isLooping := false |}.

Definition storyRequest : GenerateVideoParams := request STORY_TO_VIDEO storyText.

Definition textRequest : GenerateVideoParams :=
  request TEXT_TO_VIDEO "a paper boat on a river".

Definition generated (name : string) : VideoResult :=
  {| objectUrl := "blob:" ++ name;
     blob := {| blobType := "video/mp4"; blobBytes := [x00; x00; x00; x18] |};
     video := {| videoUri := "files/" ++ name |} |}.

(** Every call answers well; the speech is the four bytes 00 80 FF 7F. *)
Definition allWell (name : string) : Answers :=
  {| aistudio := Some (inr true);
     engineMessage := messages;
     parsed := Some storyScript;
     videoSettled := inr (generated name);
     speechSettled := inr "AID/fw==";
     videoRejectsFirst := false;
     atobResult := Some [0; 128; 255; 127]%Z;
     outputAudioContext := AudioDecoder.baseline |}.

(** The video call is rejected, the speech call answers. *)
Definition videoFails (reason : string) : Answers :=
  {| aistudio := Some (inr true);
     engineMessage := messages;
     parsed := Some storyScript;
     videoSettled := inl (ErrorObject reason);
     speechSettled := inr "AID/fw==";
     videoRejectsFirst := true;
     atobResult := Some [0; 128; 255; 127]%Z;
     outputAudioContext := AudioDecoder.baseline |}.

(** A request without a script: only the video call is made. *)
Definition videoOnly (name : string) : Answers :=
  {| aistudio := Some (inr true);
     engineMessage := messages;
     parsed := None;
     videoSettled := inr (generated name);
     speechSettled := inl OtherValue;
     videoRejectsFirst := false;
     atobResult := None;
     outputAudioContext := AudioDecoder.baseline |}.

(** Both calls answer, but the speech is the three bytes 00 80 FF. *)
Definition oddSpeech (name : string) : Answers :=
  {| aistudio := Some (inr true);
     engineMessage := messages;
     parsed := Some storyScript;
     videoSettled := inr (generated name);
     speechSettled := inr "AID/";
     videoRejectsFirst := false;
     atobResult := Some [0; 128; 255]%Z;
     outputAudioContext := AudioDecoder.baseline |}.

(** No key has been selected. *)
Definition noKey : Answers :=
  {| aistudio := Some (inr false);
     engineMessage := messages;
     parsed := Some storyScript;
     videoSettled := inr (generated "unused");
     speechSettled := inr "AID/fw==";
     videoRejectsFirst := false;
     atobResult := Some [0; 128; 255; 127]%Z;
     outputAudioContext := AudioDecoder.baseline |}.

(** A story is shown with its narration. *)
Definition storyShown : Session :=
  run [Submit storyRequest (allWell "story-1")] initialSession.

(** The story was shown and its retry failed. *)
Definition retryFailed : Session :=
  run [Submit storyRequest (allWell "story-1");
       ClickRetry (videoFails "503 The model is overloaded.")] initialSession.

(** The story was shown, its retry failed, and "Try Again" brought the
    form back. *)
Definition formAfterFailedRetry : Session :=
  run [Submit storyRequest (allWell "story-1");
       ClickRetry (videoFails "503 The model is overloaded.");
       ClickTryAgain] initialSession.

(** From there a plain text request is submitted and succeeds. *)
Definition textShown : Session :=
  run [Submit textRequest (videoOnly "text-1")] formAfterFailedRetry.

End Scenario.

(** ** The channels of a decoded buffer, written out *)

(** Channel [channel] holds, frame after frame, the quotients of the
    elements [channel], [numChannels + channel], [2 * numChannels + channel],
    and so on, of the interleaved data. *)
Definition deinterleave (dataInt16 : list Z) (numChannels frames : nat)
  : list (list AudioDecoder.Sample) :=
  (fun channel =>
     (fun frame =>
        AudioDecoder.div32768 (dataInt16 !! (frame * numChannels + channel)%nat))
     <$> seq 0 frames)
  <$> seq 0 numChannels.

(** ** Attempts that overlap *)

(** A run of a handler that has reached an [await] and waits there. *)
Inductive Task : Type :=
  (** [checkApiKey], started at mount, at [await hasSelectedApiKey()] *)
  | MountCheck
  (** [handleGenerate] at [await hasSelectedApiKey()], before any setter *)
  | AwaitingKey (params : GenerateVideoParams)
  (** [handleGenerate] in its try block, past the four setters *)
  | AwaitingResult (params : GenerateVideoParams)
  (** [handleApiKeyDialogContinue] at [await openSelectKey()], with the
      [appState] and [lastConfig] of the render that showed the dialog *)
  | AwaitingSelectKey (closureState : AppState)
                      (closureConfig : option GenerateVideoParams).

(** The component with the runs in flight. *)
Record World : Type := mkWorld {
  session : Session;
  pending : list Task
}.

(** A use of a control; the answers of the outside come later. *)
Inductive Gesture : Type :=
  | SubmitForm (params : GenerateVideoParams)
  | PressRetry
  | PressExtend
  | PressNewVideo
  | PressTryAgain
  | PressContinue.

Definition gestureControl (g : Gesture) : Control :=
  match g with
  | SubmitForm _ => PromptFormSubmit
  | PressRetry => RetryButton
  | PressExtend => ExtendButton
  | PressNewVideo => NewVideoButton
  | PressTryAgain => TryAgainButton
  | PressContinue => ApiKeyDialogContinue
  end.

(** [handleGenerate(params)] up to its first [await]: the key check when
    [window.aistudio] is there, else the four setters and the try block. *)
Definition startGenerate (aistudioPresent : bool) (params : GenerateVideoParams)
    (w : World) : World :=
  if aistudioPresent then
    mkWorld (session w) (AwaitingKey params :: pending w)
  else
    mkWorld (beginGenerate params (session w)) (AwaitingResult params :: pending w).

(** [handleRetry] with the [lastConfig] of its closure. *)
Definition startRetry (aistudioPresent : bool) (config : option GenerateVideoParams)
    (w : World) : World :=
  match config with
  | Some c => startGenerate aistudioPresent c w
  | None => w
  end.

(** The end of [handleApiKeyDialogContinue]:
    [if (appState === AppState.ERROR && lastConfig) { handleRetry(); }] *)
Definition afterSelectKey (aistudioPresent : bool) (closureState : AppState)
    (closureConfig : option GenerateVideoParams) (w : World) : World :=
  match closureState, closureConfig with
  | ERROR, Some _ => startRetry aistudioPresent closureConfig w
  | _, _ => w
  end.

(** The handler of a control, up to its first [await]. *)
Definition press (aistudioPresent : bool) (g : Gesture) (w : World) : World :=
  let s := session w in
  match g with
  | SubmitForm params => startGenerate aistudioPresent params w
  | PressRetry => startRetry aistudioPresent (lastConfig s) w
  | PressExtend => mkWorld (handleExtend s) (pending w)
  | PressNewVideo => mkWorld (handleNewVideo s) (pending w)
  | PressTryAgain => mkWorld (handleTryAgainFromError s) (pending w)
  | PressContinue =>
      let closed := setShowApiKeyDialog false s in
      if aistudioPresent then
        mkWorld closed (AwaitingSelectKey (appState s) (lastConfig s) :: pending w)
      else
        afterSelectKey aistudioPresent (appState s) (lastConfig s)
                       (mkWorld closed (pending w))
  end.

(** What an awaited promise settles to. *)
Inductive Settlement : Type :=
  | KeyCheck (answer : Thrown + bool)
  | Outcome (ans : Answers)
  | SelectKey (resolved : bool).

Definition fits (t : Task) (r : Settlement) : bool :=
  match t, r with
  | MountCheck, KeyCheck _
  | AwaitingKey _, KeyCheck _
  | AwaitingResult _, Outcome _
  | AwaitingSelectKey _ _, SelectKey _ => true
  | _, _ => false
  end.

(** A waiting run goes on, in the world it finds, to its next [await] or to
    its end.  The try block of [handleGenerate] has no setter before its
    last [await], so it is resumed in one piece. *)
Definition resume (aistudioPresent : bool) (t : Task) (r : Settlement) (w : World)
  : World :=
  match t, r with
  | MountCheck, KeyCheck answer =>
      if keyMissing (Some answer)
      then mkWorld (setShowApiKeyDialog true (session w)) (pending w)
      else w
  | AwaitingKey params, KeyCheck answer =>
      if keyMissing (Some answer)
      then mkWorld (setShowApiKeyDialog true (session w)) (pending w)
      else mkWorld (beginGenerate params (session w))
                   (AwaitingResult params :: pending w)
  | AwaitingResult params, Outcome ans =>
      mkWorld (settle (snd (attempt params ans)) (session w)) (pending w)
  | AwaitingSelectKey closureState closureConfig, SelectKey true =>
      afterSelectKey aistudioPresent closureState closureConfig w
  | _, _ => w
  end.

Definition mountWorld (aistudioPresent : bool) : World :=
  mkWorld initialSession (if aistudioPresent then [MountCheck] else []).

(** The worlds the component gets into: controls are used when the view
    offers them, and any waiting run may go on at any moment. *)
Inductive reaches (aistudioPresent : bool) : World -> Prop :=
  | reaches_mount : reaches aistudioPresent (mountWorld aistudioPresent)
  | reaches_press (w : World) (g : Gesture) :
      reaches aistudioPresent w ->
      offered (gestureControl g) (session w) = true ->
      reaches aistudioPresent (press aistudioPresent g w)
  | reaches_resume (w : World) (before after : list Task) (t : Task)
                   (r : Settlement) :
      reaches aistudioPresent w ->
      pending w = before ++ t :: after ->
      fits t r = true ->
      reaches aistudioPresent
        (resume aistudioPresent t r (mkWorld (session w) (before ++ after))).

(** Whether the answers of an event are those of a window with or without
    [window.aistudio]. *)
Definition eventFits (aistudioPresent : bool) (e : Event) : bool :=
  let agrees {A : Type} (o : option A) : bool :=
    match o with
    | Some _ => aistudioPresent
    | None => negb aistudioPresent
    end in
  match e with
  | Submit _ ans => agrees (aistudio ans)
  | ClickRetry ans => agrees (aistudio ans)
  | ClickContinue selectKey ans => agrees selectKey && agrees (aistudio ans)
  | _ => true
  end.

(** What holds of the session in every world. *)
Definition coherent (s : Session) : Prop :=
  (appState s = SUCCESS ->
     is_Some (videoUrl s) /\ is_Some (lastVideoBlob s) /\
     is_Some (lastVideoObject s)) /\
  (appState s = ERROR -> Text.truthy (errorMessage s) = true).

(** ** Two retries at once *)

Module Overlap.

(** The story is shown and Retry is pressed twice before the first key
    check answers; both checks then find a key. *)
Definition twoRuns : World :=
  let shown := mkWorld Scenario.storyShown [] in
  let pressed := press true PressRetry (press true PressRetry shown) in
  let first :=
    resume true (AwaitingKey Scenario.storyRequest) (KeyCheck (inr true))
           (mkWorld (session pressed) [AwaitingKey Scenario.storyRequest]) in
  resume true (AwaitingKey Scenario.storyRequest) (KeyCheck (inr true))
         (mkWorld (session first) [AwaitingResult Scenario.storyRequest]).

(** One run succeeds, "New Video" is pressed, the other run fails. *)
Definition failureAfterNewVideo : World :=
  let succeeded :=
    resume true (AwaitingResult Scenario.storyRequest)
           (Outcome (Scenario.allWell "story-2"))
           (mkWorld (session twoRuns) [AwaitingResult Scenario.storyRequest]) in
  let fresh := press true PressNewVideo succeeded in
  resume true (AwaitingResult Scenario.storyRequest)
         (Outcome (Scenario.videoFails "503 The model is overloaded."))
         (mkWorld (session fresh) []).

(** One run fails, then the other succeeds. *)
Definition successAfterFailure : World :=
  let failed :=
    resume true (AwaitingResult Scenario.storyRequest)
           (Outcome (Scenario.videoFails "503 The model is overloaded."))
           (mkWorld (session twoRuns) [AwaitingResult Scenario.storyRequest]) in
  resume true (AwaitingResult Scenario.storyRequest)
         (Outcome (Scenario.allWell "story-2"))
         (mkWorld (session failed) []).

End Overlap.

(** ** The audio effect of [VideoResult] *)

Module AudioPlayback.

(** A buffer source node after [start()]: playing until [stop()]. *)
Inductive NodeState : Type := Playing | Stopped.

(** One run of the effect: whether its listener is attached to the video
    element, its two local variables, and every node it has created.
    [audioContext] is [None] for [null], else whether the context is still
    open; [source] is the index of the current node among [nodes]. *)
Record Playback : Type := mkPlayback {
  listening : bool;
  audioContext : option bool;
  source : option nat;
  nodes : list NodeState
}.

(** The effect body: the listener is attached (the video element is in the
    document when the effect runs), nothing else is created yet. *)
Definition mount : Playback :=
  {| listening := true; audioContext := None; source := None; nodes := [] |}.

(** [if (source) { source.stop(); }] *)
Definition stopSource (p : Playback) : list NodeState :=
  match source p with
  | Some i => <[ i := Stopped ]> (nodes p)
  | None => nodes p
  end.

(** [playAudio]: nothing without a buffer; otherwise the context is created
    if there is none, the current node is stopped, and a new node is
    created, connected and started.  Resuming a suspended context changes
    nothing that is modelled here. *)
Definition playAudio (audioBuffer : option AudioDecoder.AudioBuffer)
    (p : Playback) : Playback :=
  match audioBuffer with
  | None => p
  | Some _ =>
      let context :=
        match audioContext p with
        | None => Some true
        | Some c => Some c
        end in
      let stopped := stopSource p in
      {| listening := listening p;
         audioContext := context;
         source := Some (length stopped);
         nodes := stopped ++ [Playing] |}
  end.

(** A [play] event of the video element reaches [playAudio] only while the
    listener is attached. *)
Definition playEvent (audioBuffer : option AudioDecoder.AudioBuffer)
    (p : Playback) : Playback :=
  if listening p then playAudio audioBuffer p else p.

(** The function the effect returns: the listener is removed, the current
    node is stopped, the context is closed. *)
Definition cleanup (p : Playback) : Playback :=
  {| listening := false;
     audioContext :=
       match audioContext p with
       | Some _ => Some false
       | None => None
       end;
     source := source p;
     nodes := stopSource p |}.

Fixpoint playingCount (l : list NodeState) : nat :=
  match l with
  | [] => 0
  | Playing :: rest => S (playingCount rest)
  | Stopped :: rest => playingCount rest
  end.

End AudioPlayback.

(** * Properties *)

(** ** The audio decoder *)

Section Decoder.

Import AudioDecoder.

Lemma pair_ind {A : Type} (P : list A -> Prop) :
  P [] -> (forall x, P [x]) -> (forall x y l, P l -> P (x :: y :: l)) ->
  forall l, P l.
Proof.
  intros H0 H1 H2.
  assert (H : forall l, P l /\ forall x, P (x :: l)).
  { induction l as [|a l [IH1 IH2]]; split; auto. }
  intro l. apply H.
Qed.

Lemma int16View_length (buffer : list byte) :
  length (int16View buffer) = (length buffer / 2)%nat.
Proof.
  induction buffer as [| x | x y l IH] using pair_ind; try reflexivity.
  cbn [int16View length]. rewrite IH.
  change (S (S (length l))) with (1 * 2 + length l)%nat.
  rewrite Nat.div_add_l by lia. lia.
Qed.

Lemma byteValue_range (b : byte) : 0 <= byteValue b <= 255.
Proof.
  unfold byteValue. pose proof (Byte.to_N_bounded b). lia.
Qed.

Lemma int16OfBytes_range (lo hi : byte) : -32768 <= int16OfBytes lo hi <= 32767.
Proof.
  unfold int16OfBytes, toInt16.
  pose proof (byteValue_range lo). pose proof (byteValue_range hi).
  destruct (Z.ltb_spec (byteValue lo + 256 * byteValue hi) 32768); lia.
Qed.

Lemma int16View_range (buffer : list byte) (k : nat) (n : Z) :
  int16View buffer !! k = Some n -> -32768 <= n <= 32767.
Proof.
  revert k. induction buffer as [| x | x y l IH] using pair_ind;
    intros k; try discriminate.
  cbn [int16View]. destruct k as [|k]; cbn.
  - intros [= <-]. apply int16OfBytes_range.
  - apply IH.
Qed.

(** Element [k] of the view is made of bytes [2k] (low) and [2k+1] (high). *)
Lemma int16View_lookup (buffer : list byte) (k : nat) (lo hi : byte) :
  buffer !! (2 * k)%nat = Some lo -> buffer !! (2 * k + 1)%nat = Some hi ->
  int16View buffer !! k = Some (int16OfBytes lo hi).
Proof.
  revert k. induction buffer as [| x | x y l IH] using pair_ind; intros k H0 H1.
  - apply lookup_lt_Some in H0. cbn in H0. lia.
  - apply lookup_lt_Some in H1. cbn in H1. lia.
  - destruct k as [|k].
    + cbn in H0, H1. injection H0 as ->. injection H1 as ->. reflexivity.
    + replace (2 * S k)%nat with (S (S (2 * k))) in * by lia.
      cbn [lookup list_lookup int16View Nat.add] in *. apply IH; assumption.
Qed.

(** The inner loop after [n] turns: the slots below [n] hold the quotients,
    the others are untouched, and the array keeps its length. *)
Lemma fold_storeFrame (dataInt16 : list Z) (numChannels channel n : nat)
    (channelData : list Sample) :
  let r := fold_left (storeFrame dataInt16 numChannels channel) (seq 0 n) channelData in
  length r = length channelData /\
  forall i, (i < length channelData)%nat ->
    r !! i = if (i <? n)%nat
             then Some (div32768 (dataInt16 !! (i * numChannels + channel)%nat))
             else channelData !! i.
Proof.
  induction n as [|n [IHlen IHget]]; cbn zeta.
  - split; [reflexivity|]. intros i _. reflexivity.
  - rewrite seq_S, fold_left_app. cbn [fold_left Nat.add].
    unfold storeFrame at 1 3. split.
    + rewrite length_insert. exact IHlen.
    + intros i Hi. destruct (Nat.eq_dec i n) as [->|Hne].
      * rewrite list_lookup_insert_eq by (rewrite IHlen; exact Hi).
        destruct (Nat.ltb_spec n (S n)); [reflexivity|lia].
      * rewrite list_lookup_insert_ne by auto.
        rewrite IHget by exact Hi.
        destruct (Nat.ltb_spec i n), (Nat.ltb_spec i (S n)); try reflexivity; lia.
Qed.

Lemma toUnsignedLong_numberDiv (samples numChannels : nat) :
  toUnsignedLong (numberDiv samples numChannels) = (samples / numChannels)%nat.
Proof.
  unfold toUnsignedLong, numberDiv.
  rewrite <- Zdiv_Qdiv, <- Nat2Z.inj_div. apply Nat2Z.id.
Qed.

(** The loop makes at least as many turns as the buffer has frames. *)
Lemma turns_numberDiv (samples numChannels : nat) :
  (samples / numChannels <= turns (numberDiv samples numChannels))%nat.
Proof.
  rewrite <- toUnsignedLong_numberDiv. unfold toUnsignedLong, turns.
  pose proof (Qle_floor_ceiling (numberDiv samples numChannels)) as H.
  rewrite <- Zle_Qle in H. lia.
Qed.

(** The outer loop after [k] turns, on a buffer of equal channels. *)
Lemma fillBuffer_loop (dataInt16 : list Z) (numChannels : nat) (frameCount : Q)
    (zeros : list Sample) (k : nat) :
  (k <= numChannels)%nat ->
  exists chans,
    fold_left (fillBuffer dataInt16 numChannels frameCount) (seq 0 k)
              (inr (replicate numChannels zeros)) = inr chans /\
    length chans = numChannels /\
    forall channel, (channel < numChannels)%nat ->
      chans !! channel =
        Some (if (channel <? k)%nat
              then fillChannel dataInt16 numChannels frameCount channel zeros
              else zeros).
Proof.
  induction k as [|k IH]; intros Hk.
  - exists (replicate numChannels zeros). split; [reflexivity|]. split.
    + apply length_replicate.
    + intros channel Hc. cbn. apply lookup_replicate_2. exact Hc.
  - destruct IH as (chans & Hfold & Hlen & Hget); [lia|].
    rewrite seq_S, fold_left_app, Hfold. cbn [fold_left Nat.add fillBuffer].
    rewrite (Hget k) by lia.
    destruct (Nat.ltb_spec k k); [lia|].
    eexists. split; [reflexivity|]. split.
    + rewrite length_insert. exact Hlen.
    + intros channel Hc. destruct (Nat.eq_dec channel k) as [->|Hne].
      * rewrite list_lookup_insert_eq by lia.
        destruct (Nat.ltb_spec k (S k)); [reflexivity|lia].
      * rewrite list_lookup_insert_ne by auto. rewrite Hget by exact Hc.
        destruct (Nat.ltb_spec channel k), (Nat.ltb_spec channel (S k));
          try reflexivity; lia.
Qed.

Lemma sample_unit_range (n : Z) :
  -32768 <= n <= 32767 -> (-1 <= n # 32768 <= 1)%Q.
Proof.
  intros Hn. unfold Qle. cbn. lia.
Qed.

Lemma frame_index_bound (samples numChannels frame channel : nat) :
  (channel < numChannels)%nat -> (frame < samples / numChannels)%nat ->
  (frame * numChannels + channel < samples)%nat.
Proof.
  intros Hc Hf.
  pose proof (Nat.Div0.mul_div_le samples numChannels) as Hd.
  nia.
Qed.

Lemma supportsRate_required (ctx : AudioContext) (sampleRate : Z) :
  8000 <= sampleRate <= 96000 -> supportsRate ctx sampleRate = true.
Proof.
  intros H. unfold supportsRate, minSampleRate, maxSampleRate.
  apply andb_true_iff. split; apply Z.leb_le; lia.
Qed.

Lemma supportsRate_positive (ctx : AudioContext) (sampleRate : Z) :
  supportsRate ctx sampleRate = true -> 1 <= sampleRate.
Proof.
  unfold supportsRate, minSampleRate. intros H.
  apply andb_true_iff in H as [H _]. apply Z.leb_le in H. lia.
Qed.

Lemma decodeAudioData_odd (data : Uint8Array) (ctx : AudioContext) (sampleRate : Z)
    (numChannels : nat) :
  Nat.even (length data) = false ->
  decodeAudioData data ctx sampleRate numChannels = inl RangeError.
Proof.
  intros Hodd. unfold decodeAudioData, newInt16Array. rewrite Hodd. reflexivity.
Qed.

(** The four ways in which [createBuffer] refuses. *)
Lemma decodeAudioData_unsupported (data : Uint8Array) (ctx : AudioContext)
    (sampleRate : Z) (numChannels : nat) :
  Nat.even (length data) = true ->
  (numChannels = 0 \/ length data / 2 < numChannels \/
   maxChannels ctx < numChannels)%nat \/ supportsRate ctx sampleRate = false ->
  decodeAudioData data ctx sampleRate numChannels = inl NotSupportedError.
Proof.
  intros Heven Hbad. unfold decodeAudioData, newInt16Array. rewrite Heven.
  unfold createBuffer. rewrite toUnsignedLong_numberDiv, int16View_length.
  destruct (Nat.eqb_spec numChannels 0) as [?|Hn]; [reflexivity|].
  destruct (Nat.ltb_spec (maxChannels ctx) numChannels) as [?|Hm]; [reflexivity|].
  destruct (Nat.eqb_spec (length data / 2 / numChannels) 0) as [?|Hf]; [reflexivity|].
  destruct (supportsRate ctx sampleRate); [|reflexivity].
  exfalso. destruct Hbad as [[?|[Hlt|?]]|?]; try lia; try discriminate.
  apply Hf, Nat.div_small. exact Hlt.
Qed.

(** A run that gets its buffer: the loops fill every channel from a
    zero-filled array of [length / 2 / numChannels] slots. *)
Lemma decodeAudioData_run (data : Uint8Array) (ctx : AudioContext) (sampleRate : Z)
    (numChannels : nat) :
  Nat.even (length data) = true ->
  (1 <= numChannels)%nat ->
  (numChannels <= length data / 2)%nat ->
  (numChannels <= maxChannels ctx)%nat ->
  supportsRate ctx sampleRate = true ->
  exists chans,
    decodeAudioData data ctx sampleRate numChannels =
      inr {| numberOfChannels := numChannels;
             frameLength := (length data / 2 / numChannels)%nat;
             bufferSampleRate := sampleRate;
             channels := chans |} /\
    length chans = numChannels /\
    forall channel, (channel < numChannels)%nat ->
      chans !! channel =
        Some (fillChannel (int16View data) numChannels
                (numberDiv (length (int16View data)) numChannels) channel
                (replicate (length data / 2 / numChannels) (Num 0))).
Proof.
  intros Heven HC Hframe Hmax Hrate.
  unfold decodeAudioData, newInt16Array. rewrite Heven.
  pose proof (int16View_length data) as HL.
  set (dataInt16 := int16View data) in *.
  set (fc := numberDiv (length dataInt16) numChannels).
  assert (Hfr : toUnsignedLong fc = (length data / 2 / numChannels)%nat).
  { unfold fc. rewrite toUnsignedLong_numberDiv, HL. reflexivity. }
  assert (Hpos : (1 <= length data / 2 / numChannels)%nat).
  { apply Nat.div_le_lower_bound; lia. }
  unfold createBuffer. rewrite Hfr, Hrate.
  destruct (Nat.eqb_spec numChannels 0) as [?|_]; [lia|].
  destruct (Nat.ltb_spec (maxChannels ctx) numChannels) as [?|_]; [lia|].
  destruct (Nat.eqb_spec (length data / 2 / numChannels) 0) as [?|_]; [lia|].
  cbn [orb negb channels numberOfChannels frameLength bufferSampleRate].
  destruct (fillBuffer_loop dataInt16 numChannels fc
              (replicate (length data / 2 / numChannels) (Num 0))
              numChannels (le_n _)) as (chans & Hfold & Hlen & Hget).
  rewrite Hfold. exists chans. split; [reflexivity|]. split; [exact Hlen|].
  intros channel Hc. rewrite (Hget channel Hc).
  destruct (Nat.ltb_spec channel numChannels); [reflexivity|lia].
Qed.

(** C2, as amended.  With a context that supports the channel count and
    the sample rate, a payload of an even number of bytes that holds at
    least one complete frame decodes to a buffer: it has the requested
    channels, each of [length / 2 / numChannels] frames (the integer
    quotient, so a trailing partial frame is dropped, and the exact quotient
    when the length is a multiple of [2 * numChannels]); the sample of a
    channel at a frame is the 16-bit element at
    [frame * numChannels + channel] divided by 32768, a number between -1
    and 1.  Decoding fails, without a buffer, on a payload of an odd number
    of bytes, on one with fewer samples than channels, on more channels
    than the context supports and on a sample rate outside its range. *)
Theorem decodeAudioData_frames (data : Uint8Array) (ctx : AudioContext)
    (sampleRate : Z) (numChannels : nat) :
  (Nat.even (length data) = true ->
   (1 <= numChannels)%nat ->
   (numChannels <= length data / 2)%nat ->
   (numChannels <= maxChannels ctx)%nat ->
   supportsRate ctx sampleRate = true ->
   exists buffer,
     decodeAudioData data ctx sampleRate numChannels = inr buffer /\
     numberOfChannels buffer = numChannels /\
     frameLength buffer = (length data / 2 / numChannels)%nat /\
     length (channels buffer) = numChannels /\
     forall channel, (channel < numChannels)%nat ->
       exists channelData,
         channels buffer !! channel = Some channelData /\
         length channelData = (length data / 2 / numChannels)%nat /\
         forall frame, (frame < length data / 2 / numChannels)%nat ->
           exists n,
             int16View data !! (frame * numChannels + channel)%nat = Some n /\
             channelData !! frame = Some (Num (n # 32768)) /\
             (-1 <= n # 32768 <= 1)%Q) /\
  (Nat.even (length data) = false ->
   decodeAudioData data ctx sampleRate numChannels = inl RangeError) /\
  (Nat.even (length data) = true ->
   (length data / 2 < numChannels)%nat \/ (maxChannels ctx < numChannels)%nat \/
   supportsRate ctx sampleRate = false ->
   decodeAudioData data ctx sampleRate numChannels = inl NotSupportedError).
Proof.
  split; [|split].
  - intros Heven HC Hframe Hmax Hrate.
    destruct (decodeAudioData_run data ctx sampleRate numChannels
                Heven HC Hframe Hmax Hrate) as (chans & Hdec & Hlen & Hget).
    eexists. split; [exact Hdec|]. cbn [numberOfChannels frameLength channels].
    split; [reflexivity|]. split; [reflexivity|]. split; [exact Hlen|].
    intros channel Hc. rewrite (Hget channel Hc).
    eexists. split; [reflexivity|].
    set (frames := (length data / 2 / numChannels)%nat).
    set (fc := numberDiv (length (int16View data)) numChannels).
    destruct (fold_storeFrame (int16View data) numChannels channel (turns fc)
                (replicate frames (Num 0))) as [Hlen' Hget'].
    rewrite length_replicate in Hlen', Hget'.
    split; [exact Hlen'|].
    intros frame Hf.
    assert (Hidx : (frame * numChannels + channel < length (int16View data))%nat).
    { apply frame_index_bound; [exact Hc|]. rewrite int16View_length. exact Hf. }
    destruct (lookup_lt_is_Some_2 (int16View data) _ Hidx) as [n Hn].
    exists n. split; [exact Hn|]. split.
    + unfold fillChannel. rewrite (Hget' frame Hf).
      pose proof (turns_numberDiv (length (int16View data)) numChannels) as Ht.
      fold fc in Ht. rewrite int16View_length in Ht. fold frames in Ht.
      destruct (Nat.ltb_spec frame (turns fc)); [|lia].
      rewrite Hn. reflexivity.
    + apply sample_unit_range. eapply int16View_range. exact Hn.
  - apply decodeAudioData_odd.
  - intros Heven Hbad. apply decodeAudioData_unsupported; [exact Heven|].
    destruct Hbad as [?|[?|?]]; auto.
Qed.

(** Six bytes on one channel: three frames; five bytes: refused. *)
Lemma decodeAudioData_frames_witness :
  (exists buffer,
     decodeAudioData [x00; x80; xff; x7f; x01; x00] baseline 24000 1 = inr buffer /\
     frameLength buffer = 3%nat) /\
  decodeAudioData [x00; x80; xff; x7f; x01] baseline 24000 1 = inl RangeError /\
  decodeAudioData [x00; x80; xff; x7f] baseline 24000 3 = inl NotSupportedError.
Proof.
  split; [|split].
  - destruct (decodeAudioData_frames [x00; x80; xff; x7f; x01; x00] baseline 24000 1)
      as [Hok _].
    destruct Hok as (buffer & H & _ & Hf & _).
    + reflexivity.
    + lia.
    + cbn. lia.
    + cbn. lia.
    + reflexivity.
    + exists buffer. split; [exact H | exact Hf].
  - apply (decodeAudioData_frames [x00; x80; xff; x7f; x01] baseline 24000 1).
    reflexivity.
  - apply (decodeAudioData_frames [x00; x80; xff; x7f] baseline 24000 3).
    + reflexivity.
    + left. cbn. lia.
Defined.

(** C2, as stated, fails: three bytes are not a whole number of 16-bit
    elements and the view is refused; an empty payload, or one sample for
    two channels, asks for a buffer of no frames, which is refused too; so
    are a sample rate of zero and, by a context with the required limits
    and no more, 33 channels. *)
Lemma decodeAudioData_refused :
  decodeAudioData [x00; x80; xff] baseline 24000 1 = inl RangeError /\
  decodeAudioData [] baseline 24000 1 = inl NotSupportedError /\
  decodeAudioData [x00; x80] baseline 24000 2 = inl NotSupportedError /\
  decodeAudioData [x00; x80] baseline 0 1 = inl NotSupportedError /\
  decodeAudioData (replicate 66 x00) baseline 24000 33 = inl NotSupportedError.
Proof.
  repeat split; vm_compute; reflexivity.
Qed.

(** Three samples on two channels: the loop runs for [i = 0] and [i = 1],
    the store of the second turn falls outside the one-frame channels. *)
Example decodeAudioData_partial_frame :
  decodeAudioData [x00; x80; xff; x7f; x01; x00] baseline 24000 2 =
    inr {| numberOfChannels := 2;
           frameLength := 1;
           bufferSampleRate := 24000;
           channels := [[Num (-32768 # 32768)]; [Num (32767 # 32768)]] |}.
Proof. vm_compute. reflexivity. Qed.

End Decoder.

(** ** Occurrences in a text *)

Lemma startsWith_app (pat rest : string) :
  Text.startsWith (pat ++ rest)%string pat = true.
Proof.
  induction pat as [|c pat IH]; cbn.
  - reflexivity.
  - rewrite Ascii.eqb_refl. exact IH.
Qed.

Lemma startsWith_split (s pat : string) :
  Text.startsWith s pat = true -> exists rest, s = (pat ++ rest)%string.
Proof.
  revert s. induction pat as [|p pat IH]; intros s H.
  - exists s. reflexivity.
  - destruct s as [|c s]; cbn in H; [discriminate|].
    apply andb_true_iff in H as [Hc Hs].
    apply Ascii.eqb_eq in Hc as ->.
    destruct (IH s Hs) as [rest ->]. exists rest. reflexivity.
Qed.

(** [includes] finds exactly the occurrences, wherever they are. *)
Lemma includes_occursIn (s pat : string) :
  Text.includes s pat = true <-> occursIn pat s.
Proof.
  split.
  - induction s as [|c s IH]; cbn; intros H.
    + rewrite orb_false_r in H. apply startsWith_split in H as [rest ->].
      exists EmptyString, rest. reflexivity.
    + apply orb_true_iff in H as [H|H].
      * apply startsWith_split in H as [rest ->].
        exists EmptyString, rest. reflexivity.
      * destruct (IH H) as (before & after & ->).
        exists (String c before), after. reflexivity.
  - intros (before & after & ->).
    induction before as [|c before IH].
    + cbn [append]. destruct (pat ++ after)%string eqn:E; cbn.
      * rewrite <- E, startsWith_app. reflexivity.
      * rewrite <- E, startsWith_app. reflexivity.
    + cbn [append Text.includes]. rewrite IH. apply orb_true_r.
Qed.

Lemma includes_false (s pat : string) :
  Text.includes s pat = false <-> ~ occursIn pat s.
Proof.
  rewrite <- includes_occursIn.
  destruct (Text.includes s pat); split; intros H;
    try reflexivity; try discriminate.
  exfalso. apply H. reflexivity.
Qed.

(** ** The aspect ratio of a story *)

(** The ratio chosen for an image prompt that is a text. *)
Lemma inferAspectRatio_text (text : string) (fallback : AspectRatio) :
  inferAspectRatio (Some (JString text)) fallback =
  inr (if Text.includes text "9:16" || Text.includes text "vertical" then PORTRAIT
       else if Text.includes text "16:9" || Text.includes text "landscape"
            then LANDSCAPE
            else fallback).
Proof.
  unfold inferAspectRatio, includesMethod.
  destruct (Text.includes text "9:16"), (Text.includes text "vertical"),
    (Text.includes text "16:9"), (Text.includes text "landscape"); reflexivity.
Qed.

(** Once the script has been read, both calls are issued, the video call
    first, whatever happens next. *)
Lemma storyAttempt_calls (params : GenerateVideoParams) (ans : Answers)
    (script : Json) (dialogue voice_tone image_prompt : JsValue) (ratio : AspectRatio) :
  parsed ans = Some script ->
  destructure script = inr (dialogue, voice_tone, image_prompt) ->
  inferAspectRatio image_prompt (aspectRatio params) = inr ratio ->
  exists rest,
    fst (storyAttempt params ans) =
      GenerateVideo {| callParams := params; callPrompt := image_prompt;
                       callAspectRatio := ratio |}
      :: GenerateSpeech dialogue voice_tone :: rest.
Proof.
  intros Hp Hd Hr. unfold storyAttempt. rewrite Hp, Hd, Hr.
  destruct (promiseAll _ _ _) as [error | [videoResult audioBase64]].
  - eexists. reflexivity.
  - destruct (atobResult ans) as [binaryString|].
    + destruct (AudioDecoder.decodeAudioData _ _ _); eexists; reflexivity.
    + eexists. reflexivity.
Qed.

(** C3.  For a story whose script parses and carries a text as image
    prompt, the video call is made with that text as prompt and with a ratio
    read off the text alone: portrait when "9:16" or "vertical" occurs
    anywhere in it, whatever else it contains; else landscape when "16:9" or
    "landscape" occurs; else the ratio of the request. *)
Theorem story_aspect_ratio (params : GenerateVideoParams) (ans : Answers)
    (script : Json) (dialogue voice_tone : JsValue) (text : string) :
  mode params = STORY_TO_VIDEO ->
  parsed ans = Some script ->
  destructure script = inr (dialogue, voice_tone, Some (JString text)) ->
  exists ratio rest,
    fst (attempt params ans) =
      GenerateVideo {| callParams := params; callPrompt := Some (JString text);
                       callAspectRatio := ratio |} :: rest /\
    (occursIn "9:16" text \/ occursIn "vertical" text -> ratio = PORTRAIT) /\
    (~ occursIn "9:16" text -> ~ occursIn "vertical" text ->
     occursIn "16:9" text \/ occursIn "landscape" text -> ratio = LANDSCAPE) /\
    (~ occursIn "9:16" text -> ~ occursIn "vertical" text ->
     ~ occursIn "16:9" text -> ~ occursIn "landscape" text ->
     ratio = aspectRatio params).
Proof.
  intros Hm Hp Hd.
  pose proof (inferAspectRatio_text text (aspectRatio params)) as Hr.
  destruct (storyAttempt_calls params ans script dialogue voice_tone _ _ Hp Hd Hr)
    as [rest Hlog].
  unfold attempt. rewrite Hm. eexists. eexists. split; [exact Hlog|].
  split; [|split].
  - intros [H|H]; apply includes_occursIn in H; rewrite H; [reflexivity|].
    rewrite orb_true_r. reflexivity.
  - intros H1 H2 H3. apply includes_false in H1, H2. rewrite H1, H2. cbn.
    destruct H3 as [H|H]; apply includes_occursIn in H; rewrite H; [reflexivity|].
    rewrite orb_true_r. reflexivity.
  - intros H1 H2 H3 H4. apply includes_false in H1, H2, H3, H4.
    rewrite H1, H2, H3, H4. reflexivity.
Qed.

(** A landscape request whose image prompt says both "vertical" and "16:9"
    is generated in portrait. *)
Lemma story_aspect_ratio_witness :
  exists rest,
    fst (attempt Scenario.storyRequest (Scenario.allWell "story-1")) =
      GenerateVideo {| callParams := Scenario.storyRequest;
                       callPrompt :=
                         Some (JString "a castle at dawn, vertical 16:9 poster");
                       callAspectRatio := PORTRAIT |} :: rest.
Proof.
  destruct (story_aspect_ratio Scenario.storyRequest (Scenario.allWell "story-1")
              Scenario.storyScript (Some (JString "Once upon a time"))
              (Some (JString "calm")) "a castle at dawn, vertical 16:9 poster"
              eq_refl eq_refl eq_refl) as (ratio & rest & Hlog & Hportrait & _).
  exists rest. rewrite Hlog, Hportrait; [reflexivity|].
  right. exists "a castle at dawn, ", " 16:9 poster". reflexivity.
Defined.

(** ** Failures *)

Lemma catchBlock_fields (error : Thrown) (s : Session) :
  appState (catchBlock error s) = ERROR /\
  errorMessage (catchBlock error s) =
    Some (ErrorClassifier.userFriendlyMessage
            (ErrorClassifier.classify (ErrorClassifier.rawMessage error))) /\
  videoUrl (catchBlock error s) = videoUrl s /\
  audioBuffer (catchBlock error s) = audioBuffer s /\
  lastConfig (catchBlock error s) = lastConfig s /\
  lastVideoObject (catchBlock error s) = lastVideoObject s /\
  lastVideoBlob (catchBlock error s) = lastVideoBlob s.
Proof.
  unfold catchBlock.
  destruct (ErrorClassifier.shouldOpenDialog _); cbn; auto 10.
Qed.

(** C5.  The three rules of the classifier, first match first: a message
    in which "Requested entity was not found." occurs gives the
    model-not-found text and asks for the key dialog; otherwise a message
    in which "API_KEY_INVALID" or "API key not valid" occurs, or
    "permission denied" in any letter case, gives the invalid-key text and
    asks for the dialog; every other message is returned as it is behind
    "Video generation failed: ", without the dialog.  The catch block shows
    that text in the Error state and opens the dialog when asked. *)
Theorem classify_rules (raw : string) :
  (occursIn "Requested entity was not found." raw ->
   ErrorClassifier.classify raw =
     {| ErrorClassifier.userFriendlyMessage :=
          "Model not found. This can be caused by an invalid API key or permission issues. Please check your API key.";
        ErrorClassifier.shouldOpenDialog := true |}) /\
  (~ occursIn "Requested entity was not found." raw ->
   occursIn "API_KEY_INVALID" raw \/ occursIn "API key not valid" raw \/
   occursIn "permission denied" (Text.toLowerCase raw) ->
   ErrorClassifier.classify raw =
     {| ErrorClassifier.userFriendlyMessage :=
          "Your API key is invalid or lacks permissions. Please select a valid, billing-enabled API key.";
        ErrorClassifier.shouldOpenDialog := true |}) /\
  (~ occursIn "Requested entity was not found." raw ->
   ~ occursIn "API_KEY_INVALID" raw -> ~ occursIn "API key not valid" raw ->
   ~ occursIn "permission denied" (Text.toLowerCase raw) ->
   ErrorClassifier.classify raw =
     {| ErrorClassifier.userFriendlyMessage :=
          ("Video generation failed: " ++ raw)%string;
        ErrorClassifier.shouldOpenDialog := false |}) /\
  (forall (error : Thrown) (s : Session),
     ErrorClassifier.rawMessage error = raw ->
     appState (catchBlock error s) = ERROR /\
     errorMessage (catchBlock error s) =
       Some (ErrorClassifier.userFriendlyMessage (ErrorClassifier.classify raw)) /\
     showApiKeyDialog (catchBlock error s) =
       ErrorClassifier.shouldOpenDialog (ErrorClassifier.classify raw)
       || showApiKeyDialog s).
Proof.
  split; [|split; [|split]].
  - intros H. apply includes_occursIn in H.
    unfold ErrorClassifier.classify. rewrite H. reflexivity.
  - intros H0 H. apply includes_false in H0.
    unfold ErrorClassifier.classify. rewrite H0.
    destruct H as [H|[H|H]]; apply includes_occursIn in H; rewrite H;
      rewrite ?orb_true_r; reflexivity.
  - intros H0 H1 H2 H3. apply includes_false in H0, H1, H2, H3.
    unfold ErrorClassifier.classify. rewrite H0, H1, H2, H3. reflexivity.
  - intros error s <-. unfold catchBlock.
    destruct (ErrorClassifier.shouldOpenDialog _); cbn; auto.
Qed.

(** One message for each rule; the first carries the marks of two rules. *)
Lemma classify_rules_witness :
  ErrorClassifier.classify "403 PERMISSION DENIED: Requested entity was not found." =
    {| ErrorClassifier.userFriendlyMessage :=
         "Model not found. This can be caused by an invalid API key or permission issues. Please check your API key.";
       ErrorClassifier.shouldOpenDialog := true |} /\
  ErrorClassifier.classify "403 Permission Denied on project" =
    {| ErrorClassifier.userFriendlyMessage :=
         "Your API key is invalid or lacks permissions. Please select a valid, billing-enabled API key.";
       ErrorClassifier.shouldOpenDialog := true |} /\
  ErrorClassifier.classify "503 overloaded" =
    {| ErrorClassifier.userFriendlyMessage := "Video generation failed: 503 overloaded";
       ErrorClassifier.shouldOpenDialog := false |}.
Proof.
  split; [|split].
  - apply (classify_rules "403 PERMISSION DENIED: Requested entity was not found.").
    exists "403 PERMISSION DENIED: ", EmptyString. reflexivity.
  - apply (classify_rules "403 Permission Denied on project").
    + apply includes_false. reflexivity.
    + right. right. exists "403 ", " on project". reflexivity.
  - apply (classify_rules "503 overloaded"); apply includes_false; reflexivity.
Defined.

(** A speech payload that cannot be decoded fails the whole attempt, after
    both calls have answered: nothing of the video is stored. *)
Example undecodable_speech_fails :
  handleGenerate Scenario.storyRequest (Scenario.oddSpeech "story-1") initialSession =
    (mkSession ERROR None None
       (Some "Video generation failed: byte length of Int16Array should be a multiple of 2")
       (Some Scenario.storyRequest) None None false None,
     [HasSelectedApiKey;
      GenerateVideo {| callParams := Scenario.storyRequest;
                       callPrompt :=
                         Some (JString "a castle at dawn, vertical 16:9 poster");
                       callAspectRatio := PORTRAIT |};
      GenerateSpeech (Some (JString "Once upon a time")) (Some (JString "calm"));
      Atob "AID/";
      DecodeAudioData [x00; x80; xff];
      ConsoleError]).
Proof. vm_compute. reflexivity. Qed.

Lemma promiseAll_rejects {A B : Type} (a : Thrown + A) (b : Thrown + B) (first : bool) :
  (exists e, a = inl e) \/ (exists e, b = inl e) ->
  exists error, promiseAll a b first = inl error /\ (a = inl error \/ b = inl error).
Proof.
  intros H. destruct a as [ea|x], b as [eb|y]; cbn.
  - destruct first; eexists; split; eauto.
  - eexists; split; eauto.
  - eexists; split; eauto.
  - destruct H as [[e H]|[e H]]; discriminate.
Qed.

Lemma gateLog_quiet (a : option (Thrown + bool)) (e : Effect) :
  In e (gateLog a) -> e = HasSelectedApiKey \/ e = ConsoleWarn.
Proof.
  destruct a as [[?|?]|]; cbn; intuition.
Qed.

(** C1.  A story attempt that has issued both calls and sees one of them
    fail ends as a failure with the reason of a failed call: the log shows
    the two calls and nothing after them but the console report, so no
    decoding; the session is in Error with the classified message; the
    stored video, audio, handle and payload are the ones from before, so
    nothing of the call that succeeded is kept. *)
Theorem story_join_failure (params : GenerateVideoParams) (ans : Answers) (s : Session)
    (script : Json) (dialogue voice_tone image_prompt : JsValue) (ratio : AspectRatio) :
  keyMissing (aistudio ans) = false ->
  mode params = STORY_TO_VIDEO ->
  parsed ans = Some script ->
  destructure script = inr (dialogue, voice_tone, image_prompt) ->
  inferAspectRatio image_prompt (aspectRatio params) = inr ratio ->
  (exists e, videoSettled ans = inl e) \/ (exists e, speechSettled ans = inl e) ->
  exists error,
    (videoSettled ans = inl error \/ speechSettled ans = inl error) /\
    snd (attempt params ans) = inl error /\
    snd (handleGenerate params ans s) =
      gateLog (aistudio ans) ++
      [GenerateVideo {| callParams := params; callPrompt := image_prompt;
                        callAspectRatio := ratio |};
       GenerateSpeech dialogue voice_tone;
       ConsoleError] /\
    (forall audioBase64, ~ In (Atob audioBase64) (snd (handleGenerate params ans s))) /\
    (forall data, ~ In (DecodeAudioData data) (snd (handleGenerate params ans s))) /\
    appState (fst (handleGenerate params ans s)) = ERROR /\
    errorMessage (fst (handleGenerate params ans s)) =
      Some (ErrorClassifier.userFriendlyMessage
              (ErrorClassifier.classify (ErrorClassifier.rawMessage error))) /\
    videoUrl (fst (handleGenerate params ans s)) = videoUrl s /\
    audioBuffer (fst (handleGenerate params ans s)) = audioBuffer s /\
    lastVideoObject (fst (handleGenerate params ans s)) = lastVideoObject s /\
    lastVideoBlob (fst (handleGenerate params ans s)) = lastVideoBlob s.
Proof.
  intros Hgate Hm Hp Hd Hr Hfail.
  destruct (promiseAll_rejects _ _ (videoRejectsFirst ans) Hfail)
    as (error & Hall & Hwho).
  assert (Hatt : attempt params ans =
                 ([GenerateVideo {| callParams := params; callPrompt := image_prompt;
                                    callAspectRatio := ratio |};
                   GenerateSpeech dialogue voice_tone], inl error)).
  { unfold attempt, storyAttempt. rewrite Hm, Hp, Hd, Hr, Hall. reflexivity. }
  assert (Hlog : snd (handleGenerate params ans s) =
                 gateLog (aistudio ans) ++
                 [GenerateVideo {| callParams := params; callPrompt := image_prompt;
                                   callAspectRatio := ratio |};
                  GenerateSpeech dialogue voice_tone; ConsoleError]).
  { unfold handleGenerate. rewrite Hgate, Hatt. reflexivity. }
  assert (Hst : fst (handleGenerate params ans s) =
                catchBlock error (beginGenerate params s)).
  { unfold handleGenerate. rewrite Hgate, Hatt. reflexivity. }
  exists error. split; [exact Hwho|]. split; [rewrite Hatt; reflexivity|].
  split; [exact Hlog|].
  pose proof (catchBlock_fields error (beginGenerate params s))
    as (H1 & H2 & H3 & H4 & _ & H6 & H7).
  rewrite Hlog, Hst. repeat split; try assumption.
  - intros audioBase64 Hin. apply in_app_or in Hin as [Hin|Hin].
    + apply gateLog_quiet in Hin as [?|?]; discriminate.
    + cbn in Hin. intuition discriminate.
  - intros data Hin. apply in_app_or in Hin as [Hin|Hin].
    + apply gateLog_quiet in Hin as [?|?]; discriminate.
    + cbn in Hin. intuition discriminate.
Qed.

(** A retry of the shown story whose video call is rejected while the
    speech call answers: Error, and the video shown before is still the
    stored one. *)
Lemma story_join_failure_witness :
  appState (fst (handleGenerate Scenario.storyRequest
                   (Scenario.videoFails "503 The model is overloaded.")
                   Scenario.storyShown)) = ERROR /\
  videoUrl (fst (handleGenerate Scenario.storyRequest
                   (Scenario.videoFails "503 The model is overloaded.")
                   Scenario.storyShown)) = videoUrl Scenario.storyShown.
Proof.
  destruct (story_join_failure Scenario.storyRequest
              (Scenario.videoFails "503 The model is overloaded.") Scenario.storyShown
              Scenario.storyScript (Some (JString "Once upon a time"))
              (Some (JString "calm"))
              (Some (JString "a castle at dawn, vertical 16:9 poster")) PORTRAIT)
    as (error & _ & _ & _ & _ & _ & Hstate & _ & Hurl & _).
  - reflexivity.
  - reflexivity.
  - reflexivity.
  - reflexivity.
  - reflexivity.
  - left. eexists. reflexivity.
  - split; [exact Hstate | exact Hurl].
Defined.

(** ** The session *)

(** C6.  With a last request, a last payload and a last handle in store,
    the request put in the form by the extend action has mode
    [EXTEND_VIDEO], an empty prompt, the aspect ratio and the model of the
    last request, resolution 720p, the payload wrapped in a file as input
    video, the handle as input video object, and no start frame, end frame,
    reference image, style image or looping. *)
Theorem handleExtend_prefill (s : Session) (config : GenerateVideoParams)
    (lastBlob : Blob) (lastVideo : Video) :
  lastConfig s = Some config ->
  lastVideoBlob s = Some lastBlob ->
  lastVideoObject s = Some lastVideo ->
  exists values,
    initialFormValues (handleExtend s) = Some values /\
    mode values = EXTEND_VIDEO /\
    prompt values = EmptyString /\
    aspectRatio values = aspectRatio config /\
    model values = model config /\
    resolution values = P720 /\
    inputVideo values =
      Some {| file := {| fileParts := [lastBlob];
                         fileName := "last_video.mp4";
                         fileType := blobType lastBlob |};
              base64 := EmptyString |} /\
    inputVideoObject values = Some lastVideo /\
    startFrame values = None /\
    endFrame values = None /\
    referenceImages values = [] /\
    styleImage values = None /\
    isLooping values = false.
Proof.
  intros Hc Hb Hv. unfold handleExtend. rewrite Hc, Hb, Hv.
  exists (extendValues config lastBlob lastVideo). cbn. auto 15.
Qed.

(** Extending the story that is shown. *)
Lemma handleExtend_prefill_witness :
  exists values,
    initialFormValues (handleExtend Scenario.storyShown) = Some values /\
    mode values = EXTEND_VIDEO /\
    inputVideoObject values = Some {| videoUri := "files/story-1" |}.
Proof.
  destruct (handleExtend_prefill Scenario.storyShown Scenario.storyRequest
              (blob (Scenario.generated "story-1"))
              (video (Scenario.generated "story-1")))
    as (values & H & Hm & _ & _ & _ & _ & _ & Hv & _).
  - reflexivity.
  - reflexivity.
  - reflexivity.
  - exists values. auto.
Defined.

(** C7, as stated, fails: in the form reached by "Try Again" after a shown
    story and its failed retry, a submit that passes the gate leaves the
    stored video URL and audio buffer of the story in place. *)
Lemma submit_keeps_stored_result :
  appState Scenario.formAfterFailedRetry = IDLE /\
  keyMissing (aistudio (Scenario.videoOnly "text-1")) = false /\
  videoUrl (beginGenerate Scenario.textRequest Scenario.formAfterFailedRetry) =
    Some "blob:story-1" /\
  audioBuffer (beginGenerate Scenario.textRequest Scenario.formAfterFailedRetry)
    <> None.
Proof.
  repeat split; try (vm_compute; reflexivity). vm_compute. discriminate.
Qed.

(** C7, as amended.  A submit that passes the gate runs the attempt from a
    session that is Loading, has the submitted request as last request, no
    error message and no form values; the view then offers nothing but the
    key dialog if it was open, so no earlier result is on display; the
    stored video URL, payload and handle are the ones from before. *)
Theorem submit_begins (params : GenerateVideoParams) (ans : Answers) (s : Session) :
  keyMissing (aistudio ans) = false ->
  fst (handleGenerate params ans s) =
    settle (snd (attempt params ans)) (beginGenerate params s) /\
  appState (beginGenerate params s) = LOADING /\
  lastConfig (beginGenerate params s) = Some params /\
  errorMessage (beginGenerate params s) = None /\
  initialFormValues (beginGenerate params s) = None /\
  controls (beginGenerate params s) =
    (if showApiKeyDialog s then [ApiKeyDialogContinue] else []) /\
  videoUrl (beginGenerate params s) = videoUrl s /\
  lastVideoBlob (beginGenerate params s) = lastVideoBlob s /\
  lastVideoObject (beginGenerate params s) = lastVideoObject s.
Proof.
  intros Hgate. split.
  - unfold handleGenerate. rewrite Hgate. destruct (attempt params ans). reflexivity.
  - unfold controls. cbn. rewrite app_nil_r. auto 10.
Qed.

Lemma submit_begins_witness :
  appState (beginGenerate Scenario.textRequest Scenario.formAfterFailedRetry)
    = LOADING /\
  lastConfig (beginGenerate Scenario.textRequest Scenario.formAfterFailedRetry)
    = Some Scenario.textRequest.
Proof.
  destruct (submit_begins Scenario.textRequest (Scenario.videoOnly "text-1")
              Scenario.formAfterFailedRetry) as (_ & H1 & H2 & _).
  - reflexivity.
  - split; [exact H1 | exact H2].
Defined.

(** C9.  In the Error state the error view offers "Try Again" whenever
    there is a message to show.  With a last request in store the action
    leads to Idle with that request as form values, keeps it as last
    request and clears the error message; without one it is the action
    "New Video": Idle, and request, form values, video, audio, handle,
    payload and message all cleared. *)
Theorem tryAgain_from_error (s : Session) :
  appState s = ERROR ->
  offered TryAgainButton s = Text.truthy (errorMessage s) /\
  (forall config, lastConfig s = Some config ->
     appState (handleTryAgainFromError s) = IDLE /\
     initialFormValues (handleTryAgainFromError s) = Some config /\
     lastConfig (handleTryAgainFromError s) = Some config /\
     errorMessage (handleTryAgainFromError s) = None) /\
  (lastConfig s = None ->
     handleTryAgainFromError s = handleNewVideo s /\
     appState (handleTryAgainFromError s) = IDLE /\
     lastConfig (handleTryAgainFromError s) = None /\
     initialFormValues (handleTryAgainFromError s) = None /\
     videoUrl (handleTryAgainFromError s) = None /\
     audioBuffer (handleTryAgainFromError s) = None /\
     lastVideoObject (handleTryAgainFromError s) = None /\
     lastVideoBlob (handleTryAgainFromError s) = None /\
     errorMessage (handleTryAgainFromError s) = None).
Proof.
  intros Hs. split; [|split].
  - unfold offered, controls. rewrite Hs.
    destruct (showApiKeyDialog s), (Text.truthy (errorMessage s)); reflexivity.
  - intros config Hc. unfold handleTryAgainFromError. rewrite Hc. cbn. auto.
  - intros Hc. unfold handleTryAgainFromError. rewrite Hc. cbn. auto 10.
Qed.

(** After the failed retry of the story, "Try Again" returns to the form
    with the story request filled in. *)
Lemma tryAgain_from_error_witness :
  appState (handleTryAgainFromError Scenario.retryFailed) = IDLE /\
  initialFormValues (handleTryAgainFromError Scenario.retryFailed) =
    Some Scenario.storyRequest.
Proof.
  destruct (tryAgain_from_error Scenario.retryFailed) as (_ & Hsome & _).
  - vm_compute. reflexivity.
  - destruct (Hsome Scenario.storyRequest) as (H1 & H2 & _).
    + vm_compute. reflexivity.
    + split; [exact H1 | exact H2].
Defined.

Lemma settle_lastConfig (outcome : Thrown + Produced) (s : Session) :
  lastConfig (settle outcome s) = lastConfig s.
Proof.
  destruct outcome as [error|r]; cbn.
  - apply catchBlock_fields.
  - unfold applyProduced. destruct (producedAudio r); reflexivity.
Qed.

Lemma resolution_eqb_P720 (r : Resolution) :
  resolution_eqb r P720 = true <-> r = P720.
Proof.
  destruct r; cbn; split; intros H; try reflexivity; discriminate.
Qed.

(** Case analysis on everything the rendered view depends on. *)
Ltac view_cases s :=
  destruct (showApiKeyDialog s), (appState s), (Text.truthy (videoUrl s)),
    (Text.truthy (errorMessage s)); try reflexivity.

Lemma offered_RetryButton (s : Session) :
  offered RetryButton s =
    match appState s with
    | SUCCESS => Text.truthy (videoUrl s)
    | _ => false
    end.
Proof. unfold offered, controls. destruct (canExtend s); view_cases s. Qed.

Lemma offered_ExtendButton (s : Session) :
  offered ExtendButton s =
    match appState s with
    | SUCCESS => Text.truthy (videoUrl s) && canExtend s
    | _ => false
    end.
Proof. unfold offered, controls. destruct (canExtend s); view_cases s. Qed.

Lemma canExtend_true (s : Session) :
  canExtend s = true <->
  exists config, lastConfig s = Some config /\ resolution config = P720.
Proof.
  unfold canExtend. destruct (lastConfig s) as [config|].
  - rewrite resolution_eqb_P720. split.
    + intros H. exists config. auto.
    + intros (c & [= <-] & H). exact H.
  - split; [discriminate|]. intros (c & H & _). discriminate.
Qed.

(** C8, as stated, fails: on a shown story, a Success, the view offers
    Retry, and its handler takes the session through Loading to a new
    result. *)
Lemma retry_offered_on_success :
  appState Scenario.storyShown = SUCCESS /\
  offered RetryButton Scenario.storyShown = true /\
  handle (ClickRetry (Scenario.allWell "story-2")) Scenario.storyShown =
    settle (snd (attempt Scenario.storyRequest (Scenario.allWell "story-2")))
           (beginGenerate Scenario.storyRequest Scenario.storyShown) /\
  appState (beginGenerate Scenario.storyRequest Scenario.storyShown) = LOADING /\
  videoUrl (handle (ClickRetry (Scenario.allWell "story-2")) Scenario.storyShown) =
    Some "blob:story-2".
Proof.
  repeat split; vm_compute; reflexivity.
Qed.

(** C8, as amended.  The Retry button is offered exactly on a Success with
    a video URL, and the Extend button exactly there when the last request
    is at 720p; while Loading nothing is offered but the key dialog.  The
    dialog's continue action retries only from Error with a last request,
    and does nothing else than close the dialog from any other state.  A
    retry submits the stored request as it is, and once past the gate that
    request is still the last request.  Retry without a last request, and
    extend without a last request, payload or handle, change nothing. *)
Theorem retry_and_extend (s : Session) :
  (offered RetryButton s = true <->
     appState s = SUCCESS /\ Text.truthy (videoUrl s) = true) /\
  (offered ExtendButton s = true <->
     appState s = SUCCESS /\ Text.truthy (videoUrl s) = true /\
     exists config, lastConfig s = Some config /\ resolution config = P720) /\
  (appState s = LOADING ->
     forall c, offered c s = true -> c = ApiKeyDialogContinue) /\
  (forall selectKey ans, appState s <> ERROR ->
     handleApiKeyDialogContinue selectKey ans s =
       (setShowApiKeyDialog false s,
        match selectKey with Some _ => [OpenSelectKey] | None => [] end)) /\
  (forall selectKey ans config,
     appState s = ERROR -> lastConfig s = Some config -> selectKey <> Some false ->
     fst (handleApiKeyDialogContinue selectKey ans s) =
       fst (handleGenerate config ans (setShowApiKeyDialog false s))) /\
  (forall ans config, lastConfig s = Some config ->
     handleRetry ans s = handleGenerate config ans s /\
     (keyMissing (aistudio ans) = false ->
      lastConfig (fst (handleRetry ans s)) = Some config)) /\
  (forall ans, lastConfig s = None -> handleRetry ans s = (s, [])) /\
  (lastConfig s = None \/ lastVideoBlob s = None \/ lastVideoObject s = None ->
     handleExtend s = s).
Proof.
  split; [|split; [|split; [|split; [|split; [|split; [|split]]]]]].
  - rewrite offered_RetryButton.
    destruct (appState s); split; try discriminate; try tauto;
      intros [? _]; discriminate.
  - rewrite offered_ExtendButton, <- canExtend_true.
    destruct (appState s); try (split; [discriminate | intros [? _]; discriminate]).
    rewrite andb_true_iff. tauto.
  - intros Hs c. unfold offered, controls. rewrite Hs.
    destruct (showApiKeyDialog s), c; cbn; congruence.
  - intros selectKey ans Hs. unfold handleApiKeyDialogContinue.
    destruct selectKey as [[|]|], (appState s), (lastConfig s);
      try reflexivity; congruence.
  - intros selectKey ans config Hs Hc Hk. unfold handleApiKeyDialogContinue.
    rewrite Hs, Hc. unfold handleRetry. cbn [lastConfig setShowApiKeyDialog].
    rewrite Hc.
    destruct selectKey as [[|]|]; try congruence;
      destruct (handleGenerate config ans _); reflexivity.
  - intros ans config Hc. unfold handleRetry. rewrite Hc. split; [reflexivity|].
    intros Hgate. unfold handleGenerate. rewrite Hgate.
    destruct (attempt config ans).
    cbn [fst]. rewrite settle_lastConfig. reflexivity.
  - intros ans Hc. unfold handleRetry. rewrite Hc. reflexivity.
  - intros H. unfold handleExtend.
    destruct (lastConfig s), (lastVideoBlob s), (lastVideoObject s);
      try reflexivity; destruct H as [H|[H|H]]; discriminate.
Qed.

(** Before anything was submitted, retry and extend change nothing. *)
Lemma retry_and_extend_witness :
  handleRetry Scenario.noKey initialSession = (initialSession, []) /\
  handleExtend initialSession = initialSession.
Proof.
  pose proof (retry_and_extend initialSession)
    as (_ & _ & _ & _ & _ & _ & Hretry & Hextend).
  split.
  - apply Hretry. reflexivity.
  - apply Hextend. left. reflexivity.
Defined.

(** C10.  When the key check answers that no key is selected, or raises,
    the submit handler opens the key dialog and does nothing else: its log
    has no generation call, and the state, last request, stored result,
    error message and form values are the ones from before. *)
Theorem credential_gate (params : GenerateVideoParams) (ans : Answers) (s : Session) :
  aistudio ans = Some (inr false) \/ (exists e, aistudio ans = Some (inl e)) ->
  fst (handleGenerate params ans s) = setShowApiKeyDialog true s /\
  (forall call, ~ In (GenerateVideo call) (snd (handleGenerate params ans s))) /\
  (forall dialogue voice_tone,
     ~ In (GenerateSpeech dialogue voice_tone) (snd (handleGenerate params ans s))) /\
  showApiKeyDialog (fst (handleGenerate params ans s)) = true /\
  appState (fst (handleGenerate params ans s)) = appState s /\
  lastConfig (fst (handleGenerate params ans s)) = lastConfig s /\
  videoUrl (fst (handleGenerate params ans s)) = videoUrl s /\
  audioBuffer (fst (handleGenerate params ans s)) = audioBuffer s /\
  lastVideoObject (fst (handleGenerate params ans s)) = lastVideoObject s /\
  lastVideoBlob (fst (handleGenerate params ans s)) = lastVideoBlob s /\
  errorMessage (fst (handleGenerate params ans s)) = errorMessage s /\
  initialFormValues (fst (handleGenerate params ans s)) = initialFormValues s.
Proof.
  intros H.
  assert (Hgate : keyMissing (aistudio ans) = true).
  { destruct H as [H|[e H]]; rewrite H; reflexivity. }
  unfold handleGenerate. rewrite Hgate. cbn [fst snd].
  repeat split; try reflexivity.
  - intros call Hin. apply gateLog_quiet in Hin as [?|?]; discriminate.
  - intros d t Hin. apply gateLog_quiet in Hin as [?|?]; discriminate.
Qed.

(** A first submit without a selected key. *)
Lemma credential_gate_witness :
  fst (handleGenerate Scenario.textRequest Scenario.noKey initialSession) =
    setShowApiKeyDialog true initialSession /\
  appState (fst (handleGenerate Scenario.textRequest Scenario.noKey initialSession))
    = IDLE.
Proof.
  destruct (credential_gate Scenario.textRequest Scenario.noKey initialSession)
    as (H & _ & _ & _ & Hs & _).
  - left. reflexivity.
  - split; [exact H | exact Hs].
Defined.

(** C4, on the code.  A story is shown with its narration; its retry
    fails; "Try Again" returns to the form; a text request is submitted and
    succeeds.  The session reached is a Success whose request is text to
    video and whose audio buffer is still the narration of the story. *)
Theorem stale_audio_on_text_result :
  reachable Scenario.textShown /\
  appState Scenario.textShown = SUCCESS /\
  lastConfig Scenario.textShown = Some Scenario.textRequest /\
  mode Scenario.textRequest = TEXT_TO_VIDEO /\
  videoUrl Scenario.textShown = Some "blob:text-1" /\
  audioBuffer Scenario.textShown = audioBuffer Scenario.storyShown /\
  audioBuffer Scenario.textShown <> None.
Proof.
  split.
  - replace Scenario.textShown
      with (handle (Submit Scenario.textRequest (Scenario.videoOnly "text-1"))
                   Scenario.formAfterFailedRetry) by (vm_compute; reflexivity).
    apply reachable_step; [|vm_compute; reflexivity].
    replace Scenario.formAfterFailedRetry
      with (handle ClickTryAgain Scenario.retryFailed) by (vm_compute; reflexivity).
    apply reachable_step; [|vm_compute; reflexivity].
    replace Scenario.retryFailed
      with (handle (ClickRetry (Scenario.videoFails "503 The model is overloaded."))
                   Scenario.storyShown) by (vm_compute; reflexivity).
    apply reachable_step; [|vm_compute; reflexivity].
    replace Scenario.storyShown
      with (handle (Submit Scenario.storyRequest (Scenario.allWell "story-1"))
                   (setShowApiKeyDialog false initialSession))
      by (vm_compute; reflexivity).
    apply reachable_step; [|vm_compute; reflexivity].
    apply reachable_mount.
  - repeat split; try (vm_compute; reflexivity). vm_compute. discriminate.
Qed.

(** * Further properties *)

(** ** The decoder, in full *)

Section DecoderOutcome.

Import AudioDecoder.

Lemma toUint8_value (c : Z) : byteValue (toUint8 c) = c mod 256.
Proof.
  unfold toUint8, byteValue.
  pose proof (Z.mod_pos_bound c 256 eq_refl) as Hc.
  destruct (Byte.of_N (Z.to_N (c mod 256))) as [b|] eqn:E.
  - apply Byte.to_of_N in E. rewrite E. lia.
  - apply Byte.of_N_None_iff in E. lia.
Qed.

(** X1.  [decode] keeps one byte per code unit of the binary string, in
    order: the code unit modulo 256, which is the code unit itself for the
    ones [atob] produces (0 to 255). *)
Theorem decode_bytes (binaryString : list Z) :
  length (decode binaryString) = length binaryString /\
  forall i c, binaryString !! i = Some c ->
    exists b, decode binaryString !! i = Some b /\
              byteValue b = c mod 256 /\
              (0 <= c < 256 -> byteValue b = c).
Proof.
  unfold decode. split; [apply length_map|].
  induction binaryString as [|x l IH]; intros i c H; [discriminate|].
  destruct i as [|i]; cbn in *.
  - injection H as ->. exists (toUint8 c). split; [reflexivity|].
    rewrite toUint8_value. split; [reflexivity|].
    intros Hc. apply Z.mod_small. exact Hc.
  - apply IH. exact H.
Qed.

Lemma decode_bytes_witness :
  exists b, decode [0; 128; 255; 127] !! 1%nat = Some b /\ byteValue b = 128.
Proof.
  destruct (decode_bytes [0; 128; 255; 127]) as [_ H].
  destruct (H 1%nat 128 eq_refl) as (b & Hb & _ & Hv).
  exists b. split; [exact Hb|]. apply Hv. lia.
Defined.

Lemma fillChannel_closed (dataInt16 : list Z) (numChannels frames channel : nat)
    (frameCount : Q) :
  (frames <= turns frameCount)%nat ->
  fillChannel dataInt16 numChannels frameCount channel (replicate frames (Num 0)) =
    (fun frame => div32768 (dataInt16 !! (frame * numChannels + channel)%nat))
    <$> seq 0 frames.
Proof.
  intros Ht. unfold fillChannel.
  destruct (fold_storeFrame dataInt16 numChannels channel (turns frameCount)
              (replicate frames (Num 0))) as [Hlen Hget].
  rewrite length_replicate in Hlen, Hget.
  apply list_eq. intros i. rewrite list_lookup_fmap.
  destruct (Nat.lt_ge_cases i frames) as [Hi|Hi].
  - rewrite (Hget i Hi). destruct (Nat.ltb_spec i (turns frameCount)); [|lia].
    rewrite lookup_seq_lt by exact Hi. reflexivity.
  - rewrite !lookup_ge_None_2; [reflexivity| |].
    + rewrite length_seq. exact Hi.
    + rewrite Hlen. exact Hi.
Qed.

Lemma decodeAudioData_closed (data : Uint8Array) (ctx : AudioContext) (sampleRate : Z)
    (numChannels : nat) :
  Nat.even (length data) = true ->
  (1 <= numChannels)%nat ->
  (numChannels <= length data / 2)%nat ->
  (numChannels <= maxChannels ctx)%nat ->
  supportsRate ctx sampleRate = true ->
  decodeAudioData data ctx sampleRate numChannels =
    inr {| numberOfChannels := numChannels;
           frameLength := (length data / 2 / numChannels)%nat;
           bufferSampleRate := sampleRate;
           channels := deinterleave (int16View data) numChannels
                         (length data / 2 / numChannels) |}.
Proof.
  intros Heven HC Hframe Hmax Hrate.
  destruct (decodeAudioData_run data ctx sampleRate numChannels
              Heven HC Hframe Hmax Hrate) as (chans & Hdec & Hlen & Hget).
  rewrite Hdec. f_equal. f_equal.
  apply list_eq. intros channel. unfold deinterleave. rewrite list_lookup_fmap.
  destruct (Nat.lt_ge_cases channel numChannels) as [Hc|Hc].
  - rewrite (Hget channel Hc), lookup_seq_lt by exact Hc. cbn. f_equal.
    apply fillChannel_closed.
    pose proof (turns_numberDiv (length (int16View data)) numChannels) as Ht.
    rewrite int16View_length in Ht at 1. exact Ht.
  - rewrite !lookup_ge_None_2; [reflexivity| |].
    + rewrite length_seq. exact Hc.
    + rewrite Hlen. exact Hc.
Qed.

(** X2.  What [decodeAudioData] returns, for every input and every
    context.  An odd number of bytes: the 16-bit view is refused with a
    [RangeError].  An even number, but no channel, fewer samples than
    channels, more channels than the context supports or a sample rate
    outside the range it supports: the buffer is refused with a
    [NotSupportedError].  Otherwise: a buffer of [numChannels] channels and
    [length / 2 / numChannels] frames at the requested rate whose channels
    are the de-interleaved samples.  Every context supports up to 32
    channels and the rates from 8000 to 96000, and none a rate below 1. *)
Theorem decodeAudioData_outcome (data : Uint8Array) (ctx : AudioContext)
    (sampleRate : Z) (numChannels : nat) :
  (Nat.even (length data) = false ->
   decodeAudioData data ctx sampleRate numChannels = inl RangeError) /\
  (Nat.even (length data) = true ->
   (numChannels = 0 \/ length data / 2 < numChannels \/
    maxChannels ctx < numChannels)%nat \/ supportsRate ctx sampleRate = false ->
   decodeAudioData data ctx sampleRate numChannels = inl NotSupportedError) /\
  (Nat.even (length data) = true ->
   (1 <= numChannels <= length data / 2)%nat ->
   (numChannels <= maxChannels ctx)%nat ->
   supportsRate ctx sampleRate = true ->
   decodeAudioData data ctx sampleRate numChannels =
     inr {| numberOfChannels := numChannels;
            frameLength := (length data / 2 / numChannels)%nat;
            bufferSampleRate := sampleRate;
            channels := deinterleave (int16View data) numChannels
                          (length data / 2 / numChannels) |}) /\
  ((numChannels <= 32)%nat -> (numChannels <= maxChannels ctx)%nat) /\
  (8000 <= sampleRate <= 96000 -> supportsRate ctx sampleRate = true) /\
  (sampleRate <= 0 -> supportsRate ctx sampleRate = false).
Proof.
  split; [|split; [|split; [|split; [|split]]]].
  - apply decodeAudioData_odd.
  - apply decodeAudioData_unsupported.
  - intros Heven [H1 H2]. apply decodeAudioData_closed; assumption.
  - unfold maxChannels. lia.
  - apply supportsRate_required.
  - intros Hneg. destruct (supportsRate ctx sampleRate) eqn:E; [|reflexivity].
    apply supportsRate_positive in E. lia.
Qed.

Lemma decodeAudioData_outcome_witness :
  decodeAudioData [x00; x80; xff] baseline 24000 1 = inl RangeError /\
  decodeAudioData [x00; x80] baseline 24000 2 = inl NotSupportedError /\
  decodeAudioData [x00; x80] baseline 1 1 = inl NotSupportedError /\
  decodeAudioData [x00; x80; xff; x7f] baseline 24000 2 =
    inr {| numberOfChannels := 2; frameLength := 1; bufferSampleRate := 24000;
           channels := [[Num (-32768 # 32768)]; [Num (32767 # 32768)]] |}.
Proof.
  split; [|split; [|split]].
  - apply (decodeAudioData_outcome [x00; x80; xff] baseline 24000 1). reflexivity.
  - apply (decodeAudioData_outcome [x00; x80] baseline 24000 2); [reflexivity|].
    left. right. left. cbn. lia.
  - apply (decodeAudioData_outcome [x00; x80] baseline 1 1); [reflexivity|].
    right. reflexivity.
  - apply (decodeAudioData_outcome [x00; x80; xff; x7f] baseline 24000 2).
    + reflexivity.
    + cbn. lia.
    + cbn. lia.
    + reflexivity.
Defined.

End DecoderOutcome.

Section DecoderMono.

Import AudioDecoder.

Lemma deinterleave_mono (dataInt16 : list Z) :
  deinterleave dataInt16 1 (length dataInt16) =
    [(fun n => Num (n # 32768)) <$> dataInt16].
Proof.
  unfold deinterleave. cbn [seq fmap list_fmap]. f_equal.
  apply list_eq. intros i. rewrite !list_lookup_fmap.
  destruct (Nat.lt_ge_cases i (length dataInt16)) as [Hi|Hi].
  - rewrite lookup_seq_lt by exact Hi. cbn.
    replace (i * 1 + 0)%nat with i by lia.
    destruct (lookup_lt_is_Some_2 dataInt16 i Hi) as [n Hn]. rewrite Hn. reflexivity.
  - rewrite (lookup_ge_None_2 (seq 0 (length dataInt16))) by (rewrite length_seq; exact Hi).
    rewrite (lookup_ge_None_2 dataInt16) by exact Hi. reflexivity.
Qed.

Lemma decodeAudioData_mono_closed (data : Uint8Array) (ctx : AudioContext)
    (sampleRate : Z) :
  Nat.even (length data) = true ->
  (2 <= length data)%nat ->
  supportsRate ctx sampleRate = true ->
  decodeAudioData data ctx sampleRate 1 =
    inr {| numberOfChannels := 1;
           frameLength := (length data / 2)%nat;
           bufferSampleRate := sampleRate;
           channels := [(fun n => Num (n # 32768)) <$> int16View data] |}.
Proof.
  intros Heven Hlen Hrate.
  assert (Hs : (1 <= length data / 2)%nat) by (apply Nat.div_le_lower_bound; lia).
  rewrite decodeAudioData_closed
    by (try assumption; try lia; unfold maxChannels; lia).
  rewrite Nat.div_1_r. rewrite <- int16View_length, deinterleave_mono.
  reflexivity.
Qed.

(** X3.  On one channel, as the application decodes speech, and at a
    sample rate the context supports (24000 is one for every context), a
    payload of an even, non-zero number of bytes gives one sample per pair
    of bytes, in order: sample [k] is the signed little-endian value of
    bytes [2k] and [2k + 1], divided by 32768.  At a rate the context does
    not support there is no buffer. *)
Theorem decodeAudioData_mono (data : Uint8Array) (ctx : AudioContext) (sampleRate : Z) :
  Nat.even (length data) = true ->
  (2 <= length data)%nat ->
  (supportsRate ctx sampleRate = true ->
   exists samples,
     decodeAudioData data ctx sampleRate 1 =
       inr {| numberOfChannels := 1;
              frameLength := (length data / 2)%nat;
              bufferSampleRate := sampleRate;
              channels := [samples] |} /\
     length samples = (length data / 2)%nat /\
     forall k lo hi,
       data !! (2 * k)%nat = Some lo -> data !! (2 * k + 1)%nat = Some hi ->
       samples !! k = Some (Num (int16OfBytes lo hi # 32768))) /\
  (supportsRate ctx sampleRate = false ->
   decodeAudioData data ctx sampleRate 1 = inl NotSupportedError) /\
  supportsRate ctx 24000 = true.
Proof.
  intros Heven Hlen. split; [|split].
  - intros Hrate. eexists.
    split; [apply decodeAudioData_mono_closed; assumption|]. split.
    + rewrite length_fmap. apply int16View_length.
    + intros k lo hi H0 H1. rewrite list_lookup_fmap.
      rewrite (int16View_lookup data k lo hi H0 H1). reflexivity.
  - intros Hrate. apply decodeAudioData_unsupported; auto.
  - apply supportsRate_required. lia.
Qed.

Lemma decodeAudioData_mono_witness :
  (exists samples,
     decodeAudioData [x00; x80; xff; x7f] baseline 24000 1 =
       inr {| numberOfChannels := 1; frameLength := 2; bufferSampleRate := 24000;
              channels := [samples] |} /\
     samples !! 1%nat = Some (Num (32767 # 32768))) /\
  decodeAudioData [x00; x80; xff; x7f] baseline 1 1 = inl NotSupportedError.
Proof.
  destruct (decodeAudioData_mono [x00; x80; xff; x7f] baseline 24000)
    as (Hok & _ & _); [reflexivity | cbn; lia |].
  destruct (decodeAudioData_mono [x00; x80; xff; x7f] baseline 1)
    as (_ & Hbad & _); [reflexivity | cbn; lia |].
  split.
  - destruct (Hok eq_refl) as (samples & H & _ & Hk).
    exists samples. split; [exact H|].
    apply (Hk 1%nat xff x7f); reflexivity.
  - apply Hbad. reflexivity.
Defined.

Lemma decodeAudioData_inr (data : Uint8Array) (ctx : AudioContext) (sampleRate : Z)
    (numChannels : nat) (buffer : AudioBuffer) :
  decodeAudioData data ctx sampleRate numChannels = inr buffer ->
  Nat.even (length data) = true /\ (1 <= numChannels <= length data / 2)%nat /\
  (numChannels <= maxChannels ctx)%nat /\ supportsRate ctx sampleRate = true.
Proof.
  intros H.
  destruct (Nat.even (length data)) eqn:E.
  - split; [reflexivity|].
    destruct (Nat.eq_dec numChannels 0%nat) as [H0|H0].
    { rewrite decodeAudioData_unsupported in H by auto. discriminate. }
    destruct (Nat.lt_ge_cases (length data / 2) numChannels) as [Hlt|Hge].
    { rewrite decodeAudioData_unsupported in H by auto. discriminate. }
    destruct (Nat.lt_ge_cases (maxChannels ctx) numChannels) as [Hm|Hm].
    { rewrite decodeAudioData_unsupported in H by auto. discriminate. }
    destruct (supportsRate ctx sampleRate) eqn:Er.
    + repeat split; lia.
    + rewrite decodeAudioData_unsupported in H by auto. discriminate.
  - rewrite decodeAudioData_odd in H by exact E. discriminate.
Qed.

(** X4.  Every slot of every channel of a buffer that [decodeAudioData]
    returns holds a number, never [NaN], and that number is at least -1 and
    strictly below 1. *)
Theorem decoded_samples_are_numbers (data : Uint8Array) (ctx : AudioContext)
    (sampleRate : Z) (numChannels : nat) (buffer : AudioBuffer) (channel frame : nat)
    (channelData : list Sample) (x : Sample) :
  decodeAudioData data ctx sampleRate numChannels = inr buffer ->
  channels buffer !! channel = Some channelData ->
  channelData !! frame = Some x ->
  exists n, x = Num (n # 32768) /\ (-1 <= n # 32768)%Q /\ (n # 32768 < 1)%Q.
Proof.
  intros Hdec Hch Hfr.
  destruct (decodeAudioData_inr _ _ _ _ _ Hdec) as (Heven & [H1 H2] & Hmax & Hrate).
  rewrite decodeAudioData_closed in Hdec by assumption.
  injection Hdec as <-. cbn [channels] in Hch. unfold deinterleave in Hch.
  rewrite list_lookup_fmap in Hch.
  destruct (seq 0 numChannels !! channel) as [c|] eqn:Ec; [|discriminate].
  apply lookup_seq in Ec as [-> Hc]. cbn in Hch. injection Hch as <-.
  rewrite list_lookup_fmap in Hfr.
  destruct (seq 0 _ !! frame) as [f|] eqn:Ef; [|discriminate].
  apply lookup_seq in Ef as [-> Hf]. cbn in Hfr. injection Hfr as <-.
  assert (Hidx : (frame * numChannels + channel < length (int16View data))%nat).
  { apply frame_index_bound; [exact Hc|]. rewrite int16View_length. exact Hf. }
  destruct (lookup_lt_is_Some_2 _ _ Hidx) as [n Hn].
  exists n. rewrite Hn. split; [reflexivity|].
  apply int16View_range in Hn. unfold Qle, Qlt. cbn. lia.
Qed.

Lemma decoded_samples_are_numbers_witness :
  exists n, Num (32767 # 32768) = Num (n # 32768) /\ (n # 32768 < 1)%Q.
Proof.
  destruct (decoded_samples_are_numbers [x00; x80; xff; x7f] baseline 24000 2
              {| numberOfChannels := 2; frameLength := 1; bufferSampleRate := 24000;
                 channels := [[Num (-32768 # 32768)]; [Num (32767 # 32768)]] |}
              1%nat 0%nat [Num (32767 # 32768)] (Num (32767 # 32768)))
    as (n & Hn & _ & Hlt).
  - vm_compute. reflexivity.
  - reflexivity.
  - reflexivity.
  - exists n. split; [exact Hn | exact Hlt].
Defined.

End DecoderMono.

(** ** The outcomes of [handleGenerate] *)

Lemma classify_nonempty (raw : string) :
  Text.truthy (Some (ErrorClassifier.userFriendlyMessage
                       (ErrorClassifier.classify raw))) = true.
Proof.
  unfold ErrorClassifier.classify.
  destruct (Text.includes raw _); [reflexivity|].
  destruct (_ || _ || _); reflexivity.
Qed.

Lemma handleGenerate_passed (params : GenerateVideoParams) (ans : Answers) (s : Session) :
  keyMissing (aistudio ans) = false ->
  handleGenerate params ans s =
    (settle (snd (attempt params ans)) (beginGenerate params s),
     gateLog (aistudio ans) ++ fst (attempt params ans)
       ++ settleLog (snd (attempt params ans))).
Proof.
  intros Hgate. unfold handleGenerate. rewrite Hgate.
  destruct (attempt params ans). reflexivity.
Qed.



(** X7.  A story, past the gate, whose script is usable, whose two calls
    resolve and whose speech is an even, non-zero number of bytes: the
    session is a Success with the video of the result and, as audio, one
    channel at 24000 Hz with one sample per pair of bytes; the log is the
    video call, the speech call, the base64 decoding and the audio
    decoding, in this order. *)
Theorem story_request_success (params : GenerateVideoParams) (ans : Answers)
    (s : Session) (script : Json) (dialogue voice_tone image_prompt : JsValue)
    (ratio : AspectRatio) (result : VideoResult) (audioBase64 : string)
    (binaryString : list Z) :
  keyMissing (aistudio ans) = false ->
  mode params = STORY_TO_VIDEO ->
  parsed ans = Some script ->
  destructure script = inr (dialogue, voice_tone, image_prompt) ->
  inferAspectRatio image_prompt (aspectRatio params) = inr ratio ->
  videoSettled ans = inr result ->
  speechSettled ans = inr audioBase64 ->
  atobResult ans = Some binaryString ->
  Nat.even (length binaryString) = true ->
  (2 <= length binaryString)%nat ->
  handleGenerate params ans s =
    (mkSession SUCCESS (Some (objectUrl result))
       (Some {| AudioDecoder.numberOfChannels := 1;
                AudioDecoder.frameLength := (length binaryString / 2)%nat;
                AudioDecoder.bufferSampleRate := 24000;
                AudioDecoder.channels :=
                  [(fun n => AudioDecoder.Num (n # 32768))
                   <$> AudioDecoder.int16View (AudioDecoder.decode binaryString)] |})
       None (Some params) (Some (video result)) (Some (blob result))
       (showApiKeyDialog s) None,
     gateLog (aistudio ans) ++
     [GenerateVideo {| callParams := params; callPrompt := image_prompt;
                       callAspectRatio := ratio |};
      GenerateSpeech dialogue voice_tone;
      Atob audioBase64;
      DecodeAudioData (AudioDecoder.decode binaryString)]).
Proof.
  intros Hgate Hm Hp Hd Hr Hv Hs Ha Heven Hlen.
  rewrite handleGenerate_passed by exact Hgate.
  assert (Hl : length (AudioDecoder.decode binaryString) = length binaryString)
    by apply length_map.
  unfold attempt, storyAttempt. rewrite Hm, Hp, Hd, Hr, Hv, Hs. cbn [promiseAll].
  rewrite Ha.
  rewrite decodeAudioData_mono_closed
    by (try (rewrite Hl; assumption); apply supportsRate_required; lia).
  rewrite Hl. reflexivity.
Qed.

Lemma story_request_success_witness :
  fst (handleGenerate Scenario.storyRequest (Scenario.allWell "story-1") initialSession)
  = mkSession SUCCESS (Some "blob:story-1")
      (Some {| AudioDecoder.numberOfChannels := 1;
               AudioDecoder.frameLength := 2;
               AudioDecoder.bufferSampleRate := 24000;
               AudioDecoder.channels :=
                 [[AudioDecoder.Num (-32768 # 32768);
                   AudioDecoder.Num (32767 # 32768)]] |})
      None (Some Scenario.storyRequest) (Some {| videoUri := "files/story-1" |})
      (Some {| blobType := "video/mp4"; blobBytes := [x00; x00; x00; x18] |})
      false None.
Proof.
  rewrite (story_request_success Scenario.storyRequest (Scenario.allWell "story-1")
             initialSession Scenario.storyScript (Some (JString "Once upon a time"))
             (Some (JString "calm"))
             (Some (JString "a castle at dawn, vertical 16:9 poster")) PORTRAIT
             (Scenario.generated "story-1") "AID/fw==" [0; 128; 255; 127]);
    try reflexivity.
  cbn. lia.
Defined.



Lemma settle_outcome (outcome : Thrown + Produced) (s : Session) :
  match outcome with
  | inr r =>
      appState (settle outcome s) = SUCCESS /\
      errorMessage (settle outcome s) = errorMessage s /\
      videoUrl (settle outcome s) = Some (objectUrl (producedVideo r)) /\
      lastVideoBlob (settle outcome s) = Some (blob (producedVideo r)) /\
      lastVideoObject (settle outcome s) = Some (video (producedVideo r)) /\
      audioBuffer (settle outcome s) =
        match producedAudio r with Some b => Some b | None => audioBuffer s end
  | inl error =>
      appState (settle outcome s) = ERROR /\
      Text.truthy (errorMessage (settle outcome s)) = true /\
      videoUrl (settle outcome s) = videoUrl s /\
      lastVideoBlob (settle outcome s) = lastVideoBlob s /\
      lastVideoObject (settle outcome s) = lastVideoObject s /\
      audioBuffer (settle outcome s) = audioBuffer s
  end /\
  lastConfig (settle outcome s) = lastConfig s /\
  initialFormValues (settle outcome s) = initialFormValues s.
Proof.
  destruct outcome as [error|r]; cbn.
  - pose proof (classify_nonempty (ErrorClassifier.rawMessage error)) as Hne.
    unfold catchBlock.
    destruct (ErrorClassifier.shouldOpenDialog _); cbn; auto 10.
  - unfold applyProduced. destruct (producedAudio r); cbn; auto 10.
Qed.



(** X9.  In story mode a video call is issued only past the gate, for a
    script that parsed and was destructured, with an image prompt that is a
    string or an array; the call carries that prompt, the inferred ratio and
    otherwise the request; and the speech call for the dialogue and tone of
    the same script is issued in the same run. *)
Theorem story_calls_go_together (params : GenerateVideoParams) (ans : Answers)
    (s : Session) (call : VideoCall) :
  mode params = STORY_TO_VIDEO ->
  In (GenerateVideo call) (snd (handleGenerate params ans s)) ->
  keyMissing (aistudio ans) = false /\
  exists script dialogue voice_tone,
    parsed ans = Some script /\
    destructure script = inr (dialogue, voice_tone, callPrompt call) /\
    ((exists text, callPrompt call = Some (JString text)) \/
     (exists items, callPrompt call = Some (JArray items))) /\
    inferAspectRatio (callPrompt call) (aspectRatio params)
      = inr (callAspectRatio call) /\
    callParams call = params /\
    In (GenerateSpeech dialogue voice_tone) (snd (handleGenerate params ans s)).
Proof.
  intros Hm Hin.
  destruct (keyMissing (aistudio ans)) eqn:Hgate.
  { unfold handleGenerate in Hin. rewrite Hgate in Hin. cbn in Hin.
    apply gateLog_quiet in Hin as [?|?]; discriminate. }
  split; [reflexivity|].
  rewrite handleGenerate_passed in * by exact Hgate. cbn [snd] in *.
  unfold attempt in *. rewrite Hm in *. unfold storyAttempt in *.
  destruct (parsed ans) as [script|].
  2:{ cbn in Hin. apply in_app_or in Hin as [Hin|Hin].
      - apply gateLog_quiet in Hin as [?|?]; discriminate.
      - cbn in Hin. intuition discriminate. }
  destruct (destructure script) as [e|[[d t] p]] eqn:Hd.
  { cbn in Hin. apply in_app_or in Hin as [Hin|Hin].
    - apply gateLog_quiet in Hin as [?|?]; discriminate.
    - cbn in Hin. intuition discriminate. }
  destruct (inferAspectRatio p (aspectRatio params)) as [e|ratio] eqn:Hr.
  { cbn in Hin. apply in_app_or in Hin as [Hin|Hin].
    - apply gateLog_quiet in Hin as [?|?]; discriminate.
    - cbn in Hin. intuition discriminate. }
  assert (Hcall : call = {| callParams := params; callPrompt := p;
                            callAspectRatio := ratio |}).
  { apply in_app_or in Hin as [Hin|Hin].
    - apply gateLog_quiet in Hin as [?|?]; discriminate.
    - destruct (promiseAll _ _ _) as [e|[v a64]];
        [|destruct (atobResult ans);
          [destruct (AudioDecoder.decodeAudioData _ _ _)|]];
        cbn in Hin; repeat (destruct Hin as [Hin|Hin]; try discriminate;
                            try (injection Hin as <-; reflexivity));
        try contradiction. }
  subst call. cbn [callPrompt callAspectRatio callParams].
  exists script, d, t. split; [reflexivity|]. split; [exact Hd|].
  split.
  { unfold inferAspectRatio, includesMethod in Hr.
    destruct p as [[| | |text|items|]|]; try discriminate; eauto. }
  split; [exact Hr|]. split; [reflexivity|].
  apply in_or_app. right.
  destruct (promiseAll _ _ _) as [e|[v a64]];
    [|destruct (atobResult ans);
      [destruct (AudioDecoder.decodeAudioData _ _ _)|]];
    cbn; auto.
Qed.

Lemma story_calls_go_together_witness :
  exists dialogue voice_tone,
    In (GenerateSpeech dialogue voice_tone)
       (snd (handleGenerate Scenario.storyRequest
               (Scenario.videoFails "503 The model is overloaded.") initialSession)).
Proof.
  destruct (story_calls_go_together Scenario.storyRequest
              (Scenario.videoFails "503 The model is overloaded.") initialSession
              {| callParams := Scenario.storyRequest;
                 callPrompt := Some (JString "a castle at dawn, vertical 16:9 poster");
                 callAspectRatio := PORTRAIT |})
    as (_ & script & d & t & _ & _ & _ & _ & _ & H).
  - reflexivity.
  - vm_compute. right. left. reflexivity.
  - exists d, t. exact H.
Defined.

Section Speech.

Import AudioDecoder.

Lemma decode_lookup (binaryString : list Z) (i : nat) (c : Z) :
  binaryString !! i = Some c -> decode binaryString !! i = Some (toUint8 c).
Proof.
  unfold decode. revert i. induction binaryString as [|x l IH]; intros i H;
    [discriminate|].
  destruct i as [|i]; cbn in *.
  - injection H as ->. reflexivity.
  - apply IH. exact H.
Qed.

(** X5.  [decode] followed by [decodeAudioData] as the application calls
    them, with any audio context, on a binary string of an even, non-zero
    number of code units between 0 and 255: sample [k] is the 16-bit signed
    value of [c0 + 256 * c1], for the code units [c0] and [c1] at [2k] and
    [2k + 1], divided by 32768. *)
Theorem speech_samples (ctx : AudioContext) (binaryString : list Z) :
  Nat.even (length binaryString) = true ->
  (2 <= length binaryString)%nat ->
  exists samples,
    decodeAudioData (decode binaryString) ctx 24000 1 =
      inr {| numberOfChannels := 1;
             frameLength := (length binaryString / 2)%nat;
             bufferSampleRate := 24000;
             channels := [samples] |} /\
    forall k c0 c1,
      binaryString !! (2 * k)%nat = Some c0 ->
      binaryString !! (2 * k + 1)%nat = Some c1 ->
      0 <= c0 < 256 -> 0 <= c1 < 256 ->
      samples !! k = Some (Num (toInt16 (c0 + 256 * c1) # 32768)).
Proof.
  intros Heven Hlen.
  assert (Hl : length (decode binaryString) = length binaryString)
    by apply length_map.
  eexists. split.
  - rewrite decodeAudioData_mono_closed
    by (try (rewrite Hl; assumption); apply supportsRate_required; lia).
    rewrite Hl. reflexivity.
  - intros k c0 c1 H0 H1 R0 R1. rewrite list_lookup_fmap.
    rewrite (int16View_lookup _ k _ _ (decode_lookup _ _ _ H0) (decode_lookup _ _ _ H1)).
    cbn. unfold int16OfBytes. rewrite !toUint8_value.
    rewrite !Z.mod_small by assumption. reflexivity.
Qed.

Lemma speech_samples_witness :
  exists samples,
    decodeAudioData (decode [0; 128; 255; 127]) baseline 24000 1 =
      inr {| numberOfChannels := 1; frameLength := 2; bufferSampleRate := 24000;
             channels := [samples] |} /\
    samples !! 0%nat = Some (Num (-32768 # 32768)).
Proof.
  destruct (speech_samples baseline [0; 128; 255; 127]) as (samples & H & Hk).
  - reflexivity.
  - cbn. lia.
  - exists samples. split; [exact H|].
    apply (Hk 0%nat 0 128); try reflexivity; lia.
Defined.

End Speech.

(** X10.  A run of [handleGenerate] for a request that is not a story
    never touches the audio buffer, whatever the gate and the service
    answer, asks for no speech and decodes nothing. *)
Theorem plain_request_keeps_audio (params : GenerateVideoParams) (ans : Answers)
    (s : Session) :
  mode params <> STORY_TO_VIDEO ->
  audioBuffer (fst (handleGenerate params ans s)) = audioBuffer s /\
  (forall dialogue voice_tone,
     ~ In (GenerateSpeech dialogue voice_tone) (snd (handleGenerate params ans s))) /\
  (forall data, ~ In (DecodeAudioData data) (snd (handleGenerate params ans s))).
Proof.
  intros Hm. destruct (keyMissing (aistudio ans)) eqn:Hgate.
  - unfold handleGenerate. rewrite Hgate. cbn [fst snd]. split; [reflexivity|].
    split; intros; intros Hin; apply gateLog_quiet in Hin as [?|?]; discriminate.
  - rewrite handleGenerate_passed by exact Hgate. cbn [fst snd].
    assert (Hatt : attempt params ans =
                   ([GenerateVideo (plainCall params)],
                    match videoSettled ans with
                    | inl error => inl error
                    | inr result =>
                        inr {| producedVideo := result; producedAudio := None |}
                    end)).
    { unfold attempt. destruct (mode params); try contradiction; reflexivity. }
    rewrite Hatt. cbn [fst snd]. split.
    + destruct (videoSettled ans) as [error|result]; cbn [settle].
      * pose proof (catchBlock_fields error (beginGenerate params s))
          as (_ & _ & _ & H & _).
        rewrite H. reflexivity.
      * reflexivity.
    + split; intros; intros Hin; apply in_app_or in Hin as [Hin|Hin];
        try (apply gateLog_quiet in Hin as [?|?]; discriminate);
        destruct (videoSettled ans); cbn in Hin; intuition discriminate.
Qed.

Lemma plain_request_keeps_audio_witness :
  audioBuffer (fst (handleGenerate Scenario.textRequest (Scenario.videoOnly "text-1")
                      Scenario.formAfterFailedRetry))
  = audioBuffer Scenario.formAfterFailedRetry.
Proof.
  apply (plain_request_keeps_audio Scenario.textRequest (Scenario.videoOnly "text-1")
           Scenario.formAfterFailedRetry).
  discriminate.
Defined.

(** ** The key dialog *)




(** X12.  The continue action of the key dialog when no key comes of
    it.  If [openSelectKey] rejects, the dialog is closed and nothing else
    happens, in whatever state.  If it resolves (or [window.aistudio] is
    absent) in the Error state with a last request, but the key check still
    finds no key, the session is as before with the dialog open again, and
    no video call is made. *)
Theorem continue_without_key (selectKey : option bool) (ans : Answers) (s : Session) :
  (selectKey = Some false ->
   handleApiKeyDialogContinue selectKey ans s =
     (setShowApiKeyDialog false s, [OpenSelectKey])) /\
  (selectKey <> Some false -> appState s = ERROR -> is_Some (lastConfig s) ->
   keyMissing (aistudio ans) = true ->
   fst (handleApiKeyDialogContinue selectKey ans s) = setShowApiKeyDialog true s /\
   forall call, ~ In (GenerateVideo call)
                     (snd (handleApiKeyDialogContinue selectKey ans s))).
Proof.
  split.
  - intros ->. reflexivity.
  - intros Hk Hs [config Hc] Hgate. unfold handleApiKeyDialogContinue.
    rewrite Hs, Hc. unfold handleRetry. cbn [lastConfig setShowApiKeyDialog].
    rewrite Hc. unfold handleGenerate. rewrite Hgate.
    destruct selectKey as [[|]|]; try congruence; cbn [fst snd]; (split; [reflexivity|]);
      intros call Hin; cbn in Hin;
      repeat (destruct Hin as [Hin|Hin]; try discriminate);
      try (apply gateLog_quiet in Hin as [?|?]; discriminate);
      try contradiction.
Qed.

Lemma continue_without_key_witness :
  handleApiKeyDialogContinue (Some false) Scenario.noKey Scenario.retryFailed =
    (setShowApiKeyDialog false Scenario.retryFailed, [OpenSelectKey]) /\
  fst (handleApiKeyDialogContinue (Some true) Scenario.noKey Scenario.retryFailed) =
    setShowApiKeyDialog true Scenario.retryFailed.
Proof.
  split.
  - apply (continue_without_key (Some false) Scenario.noKey Scenario.retryFailed).
    reflexivity.
  - apply (continue_without_key (Some true) Scenario.noKey Scenario.retryFailed).
    + discriminate.
    + vm_compute. reflexivity.
    + vm_compute. eexists. reflexivity.
    + reflexivity.
Defined.

(** ** Worlds the component gets into *)

Lemma coherent_begin (params : GenerateVideoParams) (s : Session) :
  coherent (beginGenerate params s).
Proof. unfold coherent. cbn. split; discriminate. Qed.

Lemma coherent_settle (outcome : Thrown + Produced) (s : Session) :
  coherent (settle outcome s).
Proof.
  pose proof (settle_outcome outcome s) as (Hcase & _ & _).
  unfold coherent. destruct outcome as [error|r].
  - destruct Hcase as (H1 & H2 & _). rewrite H1, H2. split; [discriminate|auto].
  - destruct Hcase as (H1 & _ & H3 & H4 & H5 & _). rewrite H1, H3, H4, H5.
    split; [eauto|discriminate].
Qed.

Lemma coherent_idle (s : Session) : appState s = IDLE -> coherent s.
Proof. intros H. unfold coherent. rewrite H. split; discriminate. Qed.

Lemma coherent_extend (s : Session) : coherent s -> coherent (handleExtend s).
Proof.
  intros Hs. unfold handleExtend.
  destruct (lastConfig s), (lastVideoBlob s), (lastVideoObject s); try exact Hs.
  apply coherent_idle. reflexivity.
Qed.

Lemma coherent_tryAgain (s : Session) : coherent (handleTryAgainFromError s).
Proof.
  apply coherent_idle. unfold handleTryAgainFromError.
  destruct (lastConfig s); reflexivity.
Qed.

Lemma coherent_startGenerate (present : bool) (params : GenerateVideoParams)
    (w : World) :
  coherent (session w) -> coherent (session (startGenerate present params w)).
Proof.
  intros Hw. unfold startGenerate. destruct present; cbn [session].
  - exact Hw.
  - apply coherent_begin.
Qed.

Lemma coherent_startRetry (present : bool) (config : option GenerateVideoParams)
    (w : World) :
  coherent (session w) -> coherent (session (startRetry present config w)).
Proof.
  intros Hw. destruct config; cbn [startRetry]; [|exact Hw].
  apply coherent_startGenerate. exact Hw.
Qed.

Lemma coherent_afterSelectKey (present : bool) (st : AppState)
    (config : option GenerateVideoParams) (w : World) :
  coherent (session w) -> coherent (session (afterSelectKey present st config w)).
Proof.
  intros Hw. unfold afterSelectKey. destruct st, config; try exact Hw.
  apply coherent_startRetry. exact Hw.
Qed.

Lemma coherent_press (present : bool) (g : Gesture) (w : World) :
  coherent (session w) -> coherent (session (press present g w)).
Proof.
  intros Hw. destruct g; cbn [press].
  - apply coherent_startGenerate. exact Hw.
  - apply coherent_startRetry. exact Hw.
  - apply coherent_extend. exact Hw.
  - apply coherent_idle. reflexivity.
  - apply coherent_tryAgain.
  - destruct present; [exact Hw|].
    apply coherent_afterSelectKey. exact Hw.
Qed.

Lemma coherent_resume (present : bool) (t : Task) (r : Settlement) (w : World) :
  coherent (session w) -> coherent (session (resume present t r w)).
Proof.
  intros Hw. destruct t, r; cbn [resume]; try exact Hw.
  - destruct (keyMissing _); exact Hw.
  - destruct (keyMissing _); [exact Hw|]. apply coherent_begin.
  - apply coherent_settle.
  - destruct resolved; [|exact Hw]. apply coherent_afterSelectKey. exact Hw.
Qed.

(** Every world the component gets into has a coherent session. *)
Lemma reaches_coherent (present : bool) (w : World) :
  reaches present w -> coherent (session w).
Proof.
  induction 1 as [|w g _ IH _|w before after t r _ IH _ _].
  - apply coherent_idle. reflexivity.
  - apply coherent_press. exact IH.
  - apply coherent_resume. exact IH.
Qed.

(** A run of [handleGenerate] from its start to its end, nothing else
    happening in between, is a way through the worlds. *)
Lemma reaches_generate (present : bool) (params : GenerateVideoParams) (ans : Answers)
    (w : World) :
  reaches present (startGenerate present params w) ->
  match aistudio ans with Some _ => present | None => negb present end = true ->
  reaches present (mkWorld (fst (handleGenerate params ans (session w))) (pending w)).
Proof.
  intros Hw Hfit. unfold handleGenerate.
  destruct (aistudio ans) as [answer|] eqn:Ha; destruct present; try discriminate.
  - unfold startGenerate in Hw.
    pose proof (reaches_resume true _ [] (pending w) (AwaitingKey params)
                  (KeyCheck answer) Hw eq_refl eq_refl) as H1.
    cbn [resume app session pending] in H1.
    destruct (keyMissing (Some answer)) eqn:Hk; [exact H1|].
    pose proof (reaches_resume true _ [] (pending w) (AwaitingResult params)
                  (Outcome ans) H1 eq_refl eq_refl) as H2.
    cbn [resume app session pending] in H2.
    destruct (attempt params ans). exact H2.
  - unfold startGenerate in Hw. cbn [keyMissing].
    pose proof (reaches_resume false _ [] (pending w) (AwaitingResult params)
                  (Outcome ans) Hw eq_refl eq_refl) as H2.
    cbn [resume app session pending] in H2.
    destruct (attempt params ans). exact H2.
Qed.

(** So is the run of any handler to its end. *)
Lemma reaches_handle (present : bool) (e : Event) (w : World) :
  reaches present w ->
  offered (controlOf e) (session w) = true ->
  eventFits present e = true ->
  reaches present (mkWorld (handle e (session w)) (pending w)).
Proof.
  intros Hw Ho Hfit. destruct e as [params ans|ans| | | |selectKey ans];
    cbn [handle controlOf eventFits] in *.
  - apply reaches_generate; [|exact Hfit].
    exact (reaches_press present w (SubmitForm params) Hw Ho).
  - pose proof (reaches_press present w PressRetry Hw Ho) as H1.
    cbn [press] in H1. unfold handleRetry.
    destruct (lastConfig (session w)) as [config|]; cbn [startRetry] in H1.
    + apply reaches_generate; assumption.
    + destruct w. exact H1.
  - exact (reaches_press present w PressExtend Hw Ho).
  - exact (reaches_press present w PressNewVideo Hw Ho).
  - exact (reaches_press present w PressTryAgain Hw Ho).
  - apply andb_true_iff in Hfit as [Hk Ha].
    pose proof (reaches_press present w PressContinue Hw Ho) as H1.
    cbn [press] in H1. unfold handleApiKeyDialogContinue.
    set (closed := setShowApiKeyDialog false (session w)) in *.
    assert (Hretry : forall config, lastConfig (session w) = Some config ->
              reaches present (startGenerate present config (mkWorld closed (pending w))) ->
              reaches present (mkWorld (fst (handleRetry ans closed)) (pending w))).
    { intros config Hc Hs. unfold handleRetry.
      change (lastConfig closed) with (lastConfig (session w)). rewrite Hc.
      exact (reaches_generate present config ans (mkWorld closed (pending w)) Hs Ha). }
    destruct selectKey as [resolved|]; destruct present; try discriminate.
    + pose proof (reaches_resume true _ [] (pending w)
                    (AwaitingSelectKey (appState (session w)) (lastConfig (session w)))
                    (SelectKey resolved) H1 eq_refl eq_refl) as H2.
      cbn [app session resume] in H2.
      destruct resolved; [|exact H2].
      unfold afterSelectKey in H2.
      destruct (appState (session w)); try exact H2.
      destruct (lastConfig (session w)) as [config|] eqn:Hc; [|exact H2].
      cbn [startRetry] in H2.
      pose proof (Hretry config eq_refl H2) as H3.
      destruct (handleRetry ans closed). exact H3.
    + unfold afterSelectKey in H1.
      destruct (appState (session w)); try exact H1.
      destruct (lastConfig (session w)) as [config|] eqn:Hc; [|exact H1].
      cbn [startRetry] in H1.
      pose proof (Hretry config eq_refl H1) as H3.
      destruct (handleRetry ans closed). exact H3.
Qed.

Lemma reaches_storyShown : reaches true (mkWorld Scenario.storyShown []).
Proof.
  pose proof (reaches_resume true _ [] [] MountCheck (KeyCheck (inr true))
                (reaches_mount true) eq_refl eq_refl) as H0.
  pose proof (reaches_handle true
                (Submit Scenario.storyRequest (Scenario.allWell "story-1")) _ H0
                eq_refl eq_refl) as H1.
  replace Scenario.storyShown
    with (handle (Submit Scenario.storyRequest (Scenario.allWell "story-1"))
                 initialSession) by (vm_compute; reflexivity).
  exact H1.
Qed.

Lemma reaches_retryFailed : reaches true (mkWorld Scenario.retryFailed []).
Proof.
  pose proof (reaches_handle true
                (ClickRetry (Scenario.videoFails "503 The model is overloaded.")) _
                reaches_storyShown) as H1.
  replace Scenario.retryFailed
    with (handle (ClickRetry (Scenario.videoFails "503 The model is overloaded."))
                 Scenario.storyShown) by (vm_compute; reflexivity).
  apply H1; vm_compute; reflexivity.
Qed.

(** The text result that still holds the narration of a story is the
    session of such a world. *)
Example reaches_textShown : reaches true (mkWorld Scenario.textShown []).
Proof.
  pose proof (reaches_handle true ClickTryAgain _ reaches_retryFailed) as H1.
  cbn [session pending] in H1.
  pose proof (reaches_handle true
                (Submit Scenario.textRequest (Scenario.videoOnly "text-1")) _
                (H1 ltac:(vm_compute; reflexivity) eq_refl)) as H2.
  cbn [session pending] in H2.
  replace Scenario.textShown
    with (handle (Submit Scenario.textRequest (Scenario.videoOnly "text-1"))
                 (handle ClickTryAgain Scenario.retryFailed))
    by (vm_compute; reflexivity).
  apply H2; vm_compute; reflexivity.
Qed.

Lemma reaches_twoRuns : reaches true Overlap.twoRuns.
Proof.
  pose proof (reaches_press true _ PressRetry reaches_storyShown
                ltac:(vm_compute; reflexivity)) as H1.
  pose proof (reaches_press true _ PressRetry H1 ltac:(vm_compute; reflexivity)) as H2.
  pose proof (reaches_resume true _ [] [AwaitingKey Scenario.storyRequest]
                (AwaitingKey Scenario.storyRequest) (KeyCheck (inr true)) H2
                ltac:(vm_compute; reflexivity) eq_refl) as H3.
  pose proof (reaches_resume true _ [AwaitingResult Scenario.storyRequest] []
                (AwaitingKey Scenario.storyRequest) (KeyCheck (inr true)) H3
                ltac:(vm_compute; reflexivity) eq_refl) as H4.
  exact H4.
Qed.

(** With two runs in flight the session can end in Error without a last
    request, where "Try Again" starts afresh. *)
Example overlap_error_without_request :
  reaches true Overlap.failureAfterNewVideo /\
  appState (session Overlap.failureAfterNewVideo) = ERROR /\
  lastConfig (session Overlap.failureAfterNewVideo) = None /\
  handleTryAgainFromError (session Overlap.failureAfterNewVideo) =
    handleNewVideo (session Overlap.failureAfterNewVideo).
Proof.
  split; [|repeat split; vm_compute; reflexivity].
  pose proof (reaches_resume true _ [] [AwaitingResult Scenario.storyRequest]
                (AwaitingResult Scenario.storyRequest)
                (Outcome (Scenario.allWell "story-2")) reaches_twoRuns
                ltac:(vm_compute; reflexivity) eq_refl) as H1.
  pose proof (reaches_press true _ PressNewVideo H1 ltac:(vm_compute; reflexivity))
    as H2.
  pose proof (reaches_resume true _ [] [] (AwaitingResult Scenario.storyRequest)
                (Outcome (Scenario.videoFails "503 The model is overloaded.")) H2
                ltac:(vm_compute; reflexivity) eq_refl) as H3.
  exact H3.
Qed.

(** And it can end in Success with the message of the failed run still
    stored. *)
Example overlap_success_with_message :
  reaches true Overlap.successAfterFailure /\
  appState (session Overlap.successAfterFailure) = SUCCESS /\
  errorMessage (session Overlap.successAfterFailure) =
    Some "Video generation failed: 503 The model is overloaded.".
Proof.
  split; [|repeat split; vm_compute; reflexivity].
  pose proof (reaches_resume true _ [] [AwaitingResult Scenario.storyRequest]
                (AwaitingResult Scenario.storyRequest)
                (Outcome (Scenario.videoFails "503 The model is overloaded."))
                reaches_twoRuns ltac:(vm_compute; reflexivity) eq_refl) as H1.
  pose proof (reaches_resume true _ [] [] (AwaitingResult Scenario.storyRequest)
                (Outcome (Scenario.allWell "story-2")) H1
                ltac:(vm_compute; reflexivity) eq_refl) as H2.
  exact H2.
Qed.

(** X13.  In every world the component gets into, runs that overlap
    included, whenever the Extend button is offered the extend action goes
    through: last request (at 720p), payload and handle are in store, the
    session becomes Idle with the extension request as form values, video
    URL, audio and error cleared, the three stored items kept, and the form
    is offered. *)
Theorem extend_offered_works (aistudioPresent : bool) (w : World) :
  reaches aistudioPresent w ->
  offered ExtendButton (session w) = true ->
  exists config lastBlob lastVideo,
    lastConfig (session w) = Some config /\ resolution config = P720 /\
    lastVideoBlob (session w) = Some lastBlob /\
    lastVideoObject (session w) = Some lastVideo /\
    handleExtend (session w) =
      mkSession IDLE None None None (Some config) (Some lastVideo) (Some lastBlob)
                (showApiKeyDialog (session w))
                (Some (extendValues config lastBlob lastVideo)) /\
    offered PromptFormSubmit (handleExtend (session w)) = true.
Proof.
  intros Hr Ho. apply reaches_coherent in Hr as [Hsucc _].
  set (s := session w) in *.
  rewrite offered_ExtendButton in Ho.
  destruct (appState s) eqn:Hs; try discriminate.
  apply andb_true_iff in Ho as [_ Hc]. apply canExtend_true in Hc as (config & Hc & Hres).
  destruct (Hsucc eq_refl) as (_ & [b Hb] & [v Hv]).
  exists config, b, v. repeat split; try assumption.
  - unfold handleExtend. rewrite Hc, Hb, Hv.
    rewrite <- Hc, <- Hb, <- Hv. reflexivity.
  - unfold handleExtend. rewrite Hc, Hb, Hv. unfold offered, controls. cbn.
    destruct (showApiKeyDialog s); reflexivity.
Qed.

Lemma extend_offered_works_witness :
  exists config, lastConfig Scenario.storyShown = Some config /\
                 appState (handleExtend Scenario.storyShown) = IDLE.
Proof.
  destruct (extend_offered_works true (mkWorld Scenario.storyShown []))
    as (config & b & v & Hc & _ & _ & _ & He & _).
  - apply reaches_storyShown.
  - vm_compute. reflexivity.
  - exists config. split; [exact Hc|]. cbn [session] in He. rewrite He. reflexivity.
Defined.

(** X14.  In every world the component gets into, runs that overlap
    included, the Error view offers "Try Again" (the stored message is never
    empty), and the action leads to Idle with the form offered, the error
    message cleared, and the last request, if one is stored, kept and put
    in the form. *)
Theorem error_view_recovers (aistudioPresent : bool) (w : World) :
  reaches aistudioPresent w ->
  appState (session w) = ERROR ->
  offered TryAgainButton (session w) = true /\
  appState (handleTryAgainFromError (session w)) = IDLE /\
  initialFormValues (handleTryAgainFromError (session w)) = lastConfig (session w) /\
  lastConfig (handleTryAgainFromError (session w)) = lastConfig (session w) /\
  errorMessage (handleTryAgainFromError (session w)) = None /\
  offered PromptFormSubmit (handleTryAgainFromError (session w)) = true.
Proof.
  intros Hr Hs. apply reaches_coherent in Hr as [_ Herr].
  set (s := session w) in *. specialize (Herr Hs). split.
  - unfold offered, controls. rewrite Hs, Herr.
    destruct (showApiKeyDialog s); reflexivity.
  - unfold handleTryAgainFromError.
    destruct (lastConfig s) as [config|] eqn:Hc; cbn; rewrite ?Hc;
      repeat split; unfold offered, controls; cbn;
      destruct (showApiKeyDialog s); reflexivity.
Qed.

Lemma error_view_recovers_witness :
  offered TryAgainButton Scenario.retryFailed = true /\
  offered TryAgainButton (session Overlap.failureAfterNewVideo) = true.
Proof.
  split.
  - apply (error_view_recovers true (mkWorld Scenario.retryFailed [])).
    + apply reaches_retryFailed.
    + vm_compute. reflexivity.
  - apply (error_view_recovers true Overlap.failureAfterNewVideo).
    + apply overlap_error_without_request.
    + vm_compute. reflexivity.
Defined.

(** X15.  In every world the component gets into, runs that overlap
    included: a Success has a video URL, a payload and a handle in store; an
    Error has a non-empty message; and outside Loading the view offers at
    least one control. *)
Theorem success_holds_a_video (aistudioPresent : bool) (w : World) :
  reaches aistudioPresent w ->
  (appState (session w) = SUCCESS ->
     is_Some (videoUrl (session w)) /\ is_Some (lastVideoBlob (session w)) /\
     is_Some (lastVideoObject (session w))) /\
  (appState (session w) = ERROR -> Text.truthy (errorMessage (session w)) = true) /\
  (appState (session w) <> LOADING -> exists c, offered c (session w) = true).
Proof.
  intros Hr. apply reaches_coherent in Hr as [Hsucc Herr].
  split; [exact Hsucc|]. split; [exact Herr|].
  intros Hl. set (s := session w) in *. unfold offered, controls.
  destruct (appState s) eqn:Hs.
  - exists PromptFormSubmit. destruct (showApiKeyDialog s); reflexivity.
  - contradiction.
  - destruct (Text.truthy (videoUrl s)).
    + exists RetryButton. destruct (showApiKeyDialog s), (canExtend s); reflexivity.
    + exists TryAgainButton. destruct (showApiKeyDialog s); reflexivity.
  - exists TryAgainButton. rewrite (Herr eq_refl).
    destruct (showApiKeyDialog s); reflexivity.
Qed.

Lemma success_holds_a_video_witness :
  is_Some (videoUrl (session Overlap.successAfterFailure)).
Proof.
  destruct (success_holds_a_video true Overlap.successAfterFailure) as (H & _ & _).
  - apply overlap_success_with_message.
  - apply H. vm_compute. reflexivity.
Defined.

(** X16.  "New Video" from any session gives the initial session, the
    dialog flag apart; the form is offered, and retry, extend and "Try
    Again" change nothing there, nor does a second "New Video". *)
Theorem new_video_resets (s : Session) (ans : Answers) :
  handleNewVideo s = setShowApiKeyDialog (showApiKeyDialog s) initialSession /\
  offered PromptFormSubmit (handleNewVideo s) = true /\
  handleRetry ans (handleNewVideo s) = (handleNewVideo s, []) /\
  handleExtend (handleNewVideo s) = handleNewVideo s /\
  handleTryAgainFromError (handleNewVideo s) = handleNewVideo s.
Proof.
  split; [reflexivity|]. split.
  - unfold offered, controls. cbn. destruct (showApiKeyDialog s); reflexivity.
  - repeat split.
Qed.

(** ** The audio effect of the result view *)

Section Playback.

Import AudioPlayback.

Lemma playingCount_app (l1 l2 : list NodeState) :
  playingCount (l1 ++ l2) = (playingCount l1 + playingCount l2)%nat.
Proof.
  induction l1 as [|[|] l1 IH]; cbn; rewrite ?IH; reflexivity.
Qed.

Lemma playingCount_stopped (k : nat) : playingCount (replicate k Stopped) = 0%nat.
Proof. induction k as [|k IH]; [reflexivity | exact IH]. Qed.

(** The effect after [n + 1] play events with a buffer. *)
Lemma playEvent_iter (audioBuffer : AudioDecoder.AudioBuffer) (n : nat) :
  Nat.iter (S n) (playEvent (Some audioBuffer)) mount =
    {| listening := true;
       audioContext := Some true;
       source := Some n;
       nodes := replicate n Stopped ++ [Playing] |}.
Proof.
  induction n as [|n IH].
  - reflexivity.
  - rewrite Nat.iter_succ, IH. clear IH.
    unfold playEvent, playAudio, stopSource.
    cbn [listening audioContext source nodes].
    assert (E : <[n:=Stopped]> (replicate n Stopped ++ [Playing]) =
                replicate (S n) Stopped).
    { rewrite insert_app_r_alt by (rewrite length_replicate; lia).
      rewrite length_replicate, Nat.sub_diag. cbn.
      change [Stopped] with (replicate 1 Stopped).
      rewrite <- replicate_add, Nat.add_1_r. reflexivity. }
    rewrite E, length_replicate. reflexivity.
Qed.

(** X17.  The audio effect of the result view under [n] play events.
    Without an audio buffer nothing is ever created.  With one, after at
    least one event: exactly one node is playing, the last one created, all
    earlier ones are stopped; one node was created per event; and the
    context, created at the first event, is open. *)
Theorem playback_one_source (audioBuffer : option AudioDecoder.AudioBuffer) (n : nat) :
  (audioBuffer = None ->
   Nat.iter n (playEvent audioBuffer) mount = mount) /\
  (audioBuffer <> None -> (1 <= n)%nat ->
   playingCount (nodes (Nat.iter n (playEvent audioBuffer) mount)) = 1%nat /\
   length (nodes (Nat.iter n (playEvent audioBuffer) mount)) = n /\
   source (Nat.iter n (playEvent audioBuffer) mount) = Some (n - 1)%nat /\
   nodes (Nat.iter n (playEvent audioBuffer) mount) !! (n - 1)%nat = Some Playing /\
   audioContext (Nat.iter n (playEvent audioBuffer) mount) = Some true).
Proof.
  split.
  - intros ->. induction n as [|n IH]; [reflexivity|].
    rewrite Nat.iter_succ, IH. reflexivity.
  - intros Hb Hn. destruct audioBuffer as [b|]; [|contradiction].
    destruct n as [|n]; [lia|]. rewrite playEvent_iter.
    cbn [nodes source audioContext].
    rewrite playingCount_app, playingCount_stopped, length_app, length_replicate.
    replace (S n - 1)%nat with n by lia.
    repeat split; cbn; try lia.
    rewrite lookup_app_r by (rewrite length_replicate; lia).
    rewrite length_replicate, Nat.sub_diag. reflexivity.
Qed.

Lemma playback_one_source_witness :
  playingCount
    (nodes (Nat.iter 3 (playEvent (audioBuffer Scenario.storyShown)) mount)) = 1%nat.
Proof.
  apply (playback_one_source (audioBuffer Scenario.storyShown) 3).
  - vm_compute. discriminate.
  - lia.
Defined.

(** X18.  The cleanup of the audio effect, after any number of play
    events: no node is playing, no node was added, the context is closed if
    one was created (and none exists if nothing was played), and a later
    play event changes nothing, since the listener is gone. *)
Theorem playback_cleanup (audioBuffer : option AudioDecoder.AudioBuffer) (n : nat) :
  playingCount (nodes (cleanup (Nat.iter n (playEvent audioBuffer) mount))) = 0%nat /\
  audioContext (cleanup (Nat.iter n (playEvent audioBuffer) mount)) <> Some true /\
  (audioContext (cleanup (Nat.iter n (playEvent audioBuffer) mount)) = None <->
   audioBuffer = None \/ n = 0%nat) /\
  length (nodes (cleanup (Nat.iter n (playEvent audioBuffer) mount))) =
    length (nodes (Nat.iter n (playEvent audioBuffer) mount)) /\
  forall later,
    playEvent later (cleanup (Nat.iter n (playEvent audioBuffer) mount)) =
      cleanup (Nat.iter n (playEvent audioBuffer) mount).
Proof.
  destruct audioBuffer as [b|].
  - destruct n as [|n].
    + cbn. repeat split; try discriminate; auto.
    + rewrite playEvent_iter. unfold cleanup, stopSource.
      cbn [listening audioContext source nodes].
      rewrite insert_app_r_alt by (rewrite length_replicate; lia).
      rewrite length_replicate, Nat.sub_diag. cbn [insert list_insert].
      rewrite playingCount_app, playingCount_stopped, !length_app, length_replicate.
      repeat split; try discriminate; try reflexivity.
      intros [H|H]; discriminate.
  - assert (E : Nat.iter n (playEvent None) mount = mount).
    { induction n as [|n IH]; [reflexivity|]. rewrite Nat.iter_succ, IH. reflexivity. }
    rewrite E. cbn. repeat split; try discriminate; auto.
Qed.

Lemma playback_cleanup_witness :
  playingCount
    (nodes (cleanup (Nat.iter 3 (playEvent (audioBuffer Scenario.storyShown)) mount)))
  = 0%nat.
Proof.
  apply (playback_cleanup (audioBuffer Scenario.storyShown) 3).
Defined.

End Playback.

(** ** The classifier and letter case *)

Lemma toLowerCase_app (a b : string) :
  Text.toLowerCase (a ++ b)%string = (Text.toLowerCase a ++ Text.toLowerCase b)%string.
Proof.
  induction a as [|c a IH]; cbn; [reflexivity|]. rewrite IH. reflexivity.
Qed.

(** X19.  A message that does not contain "Requested entity was not
    found." and contains "permission denied" in any mix of upper and lower
    case is classified as an invalid key, with the key dialog. *)
Theorem permission_denied_any_case (raw before variant after : string) :
  raw = (before ++ variant ++ after)%string ->
  Text.toLowerCase variant = "permission denied" ->
  ~ occursIn "Requested entity was not found." raw ->
  ErrorClassifier.classify raw =
    {| ErrorClassifier.userFriendlyMessage :=
         "Your API key is invalid or lacks permissions. Please select a valid, billing-enabled API key.";
       ErrorClassifier.shouldOpenDialog := true |}.
Proof.
  intros Hraw Hlow Hnf.
  assert (Hpd : Text.includes (Text.toLowerCase raw) "permission denied" = true).
  { apply includes_occursIn.
    exists (Text.toLowerCase before), (Text.toLowerCase after).
    rewrite Hraw, !toLowerCase_app, Hlow. reflexivity. }
  apply includes_false in Hnf.
  unfold ErrorClassifier.classify. rewrite Hnf, Hpd, orb_true_r. reflexivity.
Qed.

Lemma permission_denied_any_case_witness :
  ErrorClassifier.shouldOpenDialog
    (ErrorClassifier.classify "7 PERMISSION_denied? No: Permission DENIED for key")
  = true.
Proof.
  rewrite (permission_denied_any_case
             "7 PERMISSION_denied? No: Permission DENIED for key"
             "7 PERMISSION_denied? No: " "Permission DENIED" " for key");
    try reflexivity.
  apply includes_false. reflexivity.
Defined.
